(** * LSB image steganography: [stego_tool.py] and [stego_bpp.py]

    A shallow embedding of the embed/extract codec and of the capacity
    report, followed by the properties of the codec.

    Conventions of the embedding:
    - Python [int] is [Z]; a [bytes] object is a [list Z] whose entries lie
      in [0, 256); a bit is a [Z] that is 0 or 1.
    - A Python [str] is the list of its code points ([text]).
    - An RGB pixel is a triple of channel values; the value of
      [list(img.getdata())] is a [list pixel].
    - A raised exception is the [Raise] outcome of a [result].
    - The file system is a [world] of regular files and directories, each
      named by its location.  Of Pillow and [pathlib], [Image.open],
      [Image.save] and [Path.mkdir] are modelled as far as the tool calls
      them; the table of file formats Pillow saves to is a parameter
      ([registry]).
    - The Python [float] of the capacity report is a parameter with its
      two operations; the examples take IEEE 754 binary64. *)

From Stdlib Require Import ZArith List Lia Ascii String DecimalString QArith SpecFloat.
From stdpp Require Import base gmap list strings.

Local Open Scope Z_scope.

(** ** Outcomes *)

(** The exceptions the modelled code can raise.  The repository raises
    [ValueError] with a message at every failure site of its own;
    [UnicodeEncodeError] comes from [str.encode]; the others come from
    Pillow and the file system: [FileNotFoundError],
    [UnidentifiedImageError] and [DecompressionBombError] from
    [Image.open], [KeyError] from [Image.save] for a format that is read
    only, [OSError] for its other subclasses and for Pillow's own (a
    directory where a file is expected, a file where a directory is
    expected, a broken image file, a format that cannot hold an RGB
    image). *)
Inductive exn : Type :=
  | ValueError (msg : string)
  | UnicodeEncodeError
  | FileNotFoundError
  | OSError
  | UnidentifiedImageError
  | DecompressionBombError
  | KeyError (key : string).

Inductive result (A : Type) : Type :=
  | OK (a : A)
  | Raise (e : exn).
Arguments OK {A} a.
Arguments Raise {A} e.

Definition bind {A B} (m : result A) (k : A -> result B) : result B :=
  match m with
  | OK a => k a
  | Raise e => Raise e
  end.

Notation "'let*' x ':=' m 'in' k" := (bind m (fun x => k))
  (at level 10, x pattern, m at level 100, k at level 200).

(** Left-to-right iteration of a fallible loop body. *)
Fixpoint for_each {A S} (body : S -> A -> result S) (l : list A) (s : S) : result S :=
  match l with
  | [] => OK s
  | x :: l' => let* s' := body s x in for_each body l' s'
  end.

(** ** The Python built-ins the code calls *)

Module Py.

Definition text := list Z.

(** [len(x)] as a Python integer. *)
Definition len {A} (l : list A) : Z := Z.of_nat (length l).

(** [l[lo:hi]] for [0 <= lo] and [0 <= hi]: both bounds are clamped to
    [len(l)]. *)
Definition slice {A} (l : list A) (lo hi : Z) : list A :=
  let lo := Z.min lo (len l) in
  let hi := Z.min hi (len l) in
  take (Z.to_nat (hi - lo)) (drop (Z.to_nat lo) l).

(** [next(it)]: the next item and the advanced iterator, or [None] for
    [StopIteration]. *)
Definition next {A} (it : list A) : option (A * list A) :=
  match it with
  | [] => None
  | x :: it' => Some (x, it')
  end.

(** [f"{n}"] for an integer. *)
Definition format_int (n : Z) : string := NilZero.string_of_int (Z.to_int n).

(** [n.to_bytes(4, "big")] for [0 <= n < 2^32]. *)
Definition to_bytes4_big (n : Z) : list Z :=
  [Z.land (Z.shiftr n 24) 255; Z.land (Z.shiftr n 16) 255;
   Z.land (Z.shiftr n 8) 255; Z.land n 255].

(** [int.from_bytes(bs, "big")]. *)
Definition from_bytes_big (bs : list Z) : Z :=
  fold_left (fun acc b => Z.lor (Z.shiftl acc 8) b) bs 0.

(** A code point that is a Unicode scalar value: in range and not a
    surrogate. *)
Definition scalar (c : Z) : Prop :=
  0 <= c <= 0x10FFFF /\ ~ (0xD800 <= c <= 0xDFFF).

(** [str.encode("utf-8")], one code point (the code points of a [str]
    lie in 0 .. 0x10FFFF).  Surrogates cannot be encoded. *)
Definition encode_utf8_cp (c : Z) : result (list Z) :=
  if c <? 0x80 then OK [c]
  else if c <? 0x800 then OK [0xC0 + c / 64; 0x80 + c mod 64]
  else if c <? 0x10000 then
    if (0xD800 <=? c) && (c <=? 0xDFFF) then Raise UnicodeEncodeError
    else OK [0xE0 + c / 4096; 0x80 + (c / 64) mod 64; 0x80 + c mod 64]
  else OK [0xF0 + c / 262144; 0x80 + (c / 4096) mod 64;
           0x80 + (c / 64) mod 64; 0x80 + c mod 64].

Fixpoint encode_utf8 (s : text) : result (list Z) :=
  match s with
  | [] => OK []
  | c :: s' =>
      let* bs := encode_utf8_cp c in
      let* bs' := encode_utf8 s' in
      OK (bs ++ bs')
  end.

Definition is_continuation (b : Z) : bool := (0x80 <=? b) && (b <? 0xC0).

(** U+FFFD REPLACEMENT CHARACTER. *)
Definition replacement : Z := 0xFFFD.

(** [bytes.decode("utf-8", errors="replace")].  An invalid start byte is
    replaced alone; a sequence broken by an invalid continuation byte is
    replaced up to (not including) the offending byte, where decoding
    resumes; a sequence cut by the end of the data is replaced whole. *)
Fixpoint decode_utf8_replace (bs : list Z) : text :=
  match bs with
  | [] => []
  | ch :: s1 =>
      if ch <? 0x80 then ch :: decode_utf8_replace s1
      else if ch <? 0xC2 then replacement :: decode_utf8_replace s1
      else if ch <? 0xE0 then
        match s1 with
        | [] => [replacement]
        | ch2 :: s2 =>
            if is_continuation ch2
            then ((ch - 0xC0) * 64 + (ch2 - 0x80)) :: decode_utf8_replace s2
            else replacement :: decode_utf8_replace s1
        end
      else if ch <? 0xF0 then
        match s1 with
        | [] => [replacement]
        | ch2 :: s2 =>
            if negb (is_continuation ch2)
               || (if ch2 <? 0xA0 then ch =? 0xE0 else ch =? 0xED)
            then replacement :: decode_utf8_replace s1
            else
              match s2 with
              | [] => [replacement]
              | ch3 :: s3 =>
                  if is_continuation ch3
                  then ((ch - 0xE0) * 4096 + (ch2 - 0x80) * 64 + (ch3 - 0x80))
                         :: decode_utf8_replace s3
                  else replacement :: decode_utf8_replace s2
              end
        end
      else if ch <? 0xF5 then
        match s1 with
        | [] => [replacement]
        | ch2 :: s2 =>
            if negb (is_continuation ch2)
               || (if ch2 <? 0x90 then ch =? 0xF0 else ch =? 0xF4)
            then replacement :: decode_utf8_replace s1
            else
              match s2 with
              | [] => [replacement]
              | ch3 :: s3 =>
                  if is_continuation ch3 then
                    match s3 with
                    | [] => [replacement]
                    | ch4 :: s4 =>
                        if is_continuation ch4
                        then ((ch - 0xF0) * 262144 + (ch2 - 0x80) * 4096
                              + (ch3 - 0x80) * 64 + (ch4 - 0x80))
                               :: decode_utf8_replace s4
                        else replacement :: decode_utf8_replace s3
                    end
                  else replacement :: decode_utf8_replace s2
              end
        end
      else replacement :: decode_utf8_replace s1
  end.

(** [os.path.splitext(name)[1]]: the part of a file name from its last
    dot on, the dots that lead the name apart. *)
Fixpoint last_dot_on (name : string) : string :=
  match name with
  | EmptyString => EmptyString
  | String c rest =>
      match last_dot_on rest with
      | EmptyString => if Ascii.eqb c "."%char then name else EmptyString
      | ext => ext
      end
  end.

Fixpoint splitext_ext (name : string) : string :=
  match name with
  | String c rest => if Ascii.eqb c "."%char then splitext_ext rest else last_dot_on rest
  | EmptyString => EmptyString
  end.

(** IEEE 754 binary64, the format of a Python [float], and the division of
    two integers that are doubles themselves (below 2^53): there [a / b]
    of Python is the double nearest to the quotient, which is what the
    division of the two doubles gives. *)
Definition double_of_int (n : Z) : spec_float := binary_normalize 53 1024 n 0 false.
Definition double_div (a b : Z) : spec_float :=
  SFdiv 53 1024 (double_of_int a) (double_of_int b).

End Py.

(** ** [stego_tool.py] *)

Module stego_tool.
Import Py.

Abbreviation pixel := (Z * Z * Z)%type.

(** A decoded RGB image: [img.size] and the value of [img.getdata()], in
    raster order.  Pillow keeps [len(data) = width * height]. *)
Record image : Type := { width : Z; height : Z; data : list pixel }.

(** What a file holds, as far as Pillow can tell: an image, given as it
    decodes to RGB, or something [Image.open] cannot identify. *)
Inductive file : Type :=
  | image_file (decoded : image)
  | other_file.

(** The file system as far as the tool touches it: the regular files and
    the directories that exist.  A file or directory is named by its
    location, the list of the components of the absolute path the
    operating system resolves a [Path] to, links followed: two spellings
    of one file are one location, and a file with several links is taken
    at one of them.  Where the code takes a [Path], the model takes the
    location it resolves to.  The failures modelled are those the names
    cause (a missing file, a file or a directory where the other is
    expected) and those of Pillow; the process is taken to have the right
    to read and write every location, and memory and disk to suffice. *)
Record world : Type := { files : gmap (list string) file; dirs : gset (list string) }.

(** [Image.MAX_IMAGE_PIXELS], which the repository leaves at its
    default. *)
Definition MAX_IMAGE_PIXELS : Z := 89478485.

(** A size is a pair of lengths, and the pixel data fill it. *)
Definition well_sized (im : image) : bool :=
  (0 <=? width im) && (0 <=? height im) && (len (data im) =? width im * height im).

(** [Image.open(p).convert("RGB")]: a missing file, a directory and a file
    that is no image raise; so does an image of more than
    [2 * MAX_IMAGE_PIXELS] pixels, and a file whose pixel data do not fill
    the size its header gives. *)
Definition Image_open (w : world) (p : list string) : result image :=
  match files w !! p with
  | None => if bool_decide (p ∈ dirs w) then Raise OSError else Raise FileNotFoundError
  | Some other_file => Raise UnidentifiedImageError
  | Some (image_file img) =>
      if Z.max 1 (width img) * Z.max 1 (height img) >? 2 * MAX_IMAGE_PIXELS
      then Raise DecompressionBombError
      else if negb (well_sized img) then Raise OSError
      else OK img
  end.

(** What the writer of a format does with an RGB image once the file is
    open: it writes the file, which then holds what the format keeps of
    the image, or it raises, leaving what it wrote so far. *)
Inductive written : Type :=
  | saved (f : file)
  | save_failed (partial : file).

(** What [img.save(p)] does with a path: Pillow picks the format from the
    extension; it raises [ValueError] for an extension it does not know
    and [KeyError] for a format it can only read, both before the file
    is opened; otherwise it opens the file and runs the writer of the
    format. *)
Inductive save_as : Type :=
  | unknown_extension (ext : string)
  | no_save_handler (format : string)
  | known_format (save_handler : image -> written).

(** [p.parent] *)
Definition parent (p : list string) : list string := take (length p - 1)%nat p.

(** The directories [d.mkdir(parents=True, exist_ok=True)] ensures: [d]
    and every ancestor of it. *)
Fixpoint with_parents (d : list string) (n : nat) : gset (list string) :=
  match n with
  | O => {[ take 0%nat d ]}
  | S n' => {[ take n d ]} ∪ with_parents d n'
  end.

Definition mkdir_parents (d : list string) (ds : gset (list string)) : gset (list string) :=
  ds ∪ with_parents d (length d).

(** Whether one of the first [n + 1] ancestors of [d], [d] included, is a
    regular file: [mkdir] then raises. *)
Fixpoint mkdir_blocked (fs : gmap (list string) file) (d : list string) (n : nat) : bool :=
  match n with
  | O => bool_decide (is_Some (fs !! take 0%nat d))
  | S n' => bool_decide (is_Some (fs !! take n d)) || mkdir_blocked fs d n'
  end.

Definition _to_bits (data : list Z) : list Z :=
  byte ← data;
  (fun shift => Z.land (Z.shiftr byte shift) 1) <$> [7; 6; 5; 4; 3; 2; 1; 0].

(** [out.append(v)] on a [bytearray]. *)
Definition bytearray_append (out : list Z) (v : Z) : result (list Z) :=
  if (0 <=? v) && (v <? 256) then OK (out ++ [v])
  else Raise (ValueError "byte must be in range(0, 256)").

(** One turn of the loop of [_bits_to_bytes] on the variables
    [(out, current, count)]. *)
Definition _bits_to_bytes_body (st : list Z * Z * Z) (bit : Z) : result (list Z * Z * Z) :=
  let '(out, current, count) := st in
  let current := Z.lor (Z.shiftl current 1) bit in
  let count := count + 1 in
  if count =? 8 then
    let* out := bytearray_append out current in
    OK (out, 0, 0)
  else OK (out, current, count).

Definition _bits_to_bytes (bits : list Z) : result (list Z) :=
  let* st := for_each _bits_to_bytes_body bits ([], 0, 0) in
  OK (fst (fst st)).

Definition _pack_length (length : Z) : result (list Z) :=
  if (length <? 0) || (length >? 0xFFFFFFFF)
  then Raise (ValueError "Message length must fit in 32 bits")
  else OK (to_bytes4_big length).

Definition _unpack_length (length_bytes : list Z) : result Z :=
  if negb (len length_bytes =? 4)
  then Raise (ValueError "Invalid length header")
  else OK (from_bytes_big length_bytes).

(** The f-string of the capacity check, as a function of the two numbers
    it interpolates. *)
Definition too_large_message (capacity needed : Z) : string :=
  "Message too large for image. Capacity=" +:+ format_int capacity
    +:+ " bytes, needed=" +:+ format_int needed +:+ " bytes.".

(** The objects [embed_message] holds in its local variables: the opened
    image, the list [pixels] read from it, the iterator [flat_bits] (the
    items it has not produced yet) and the list [new_pixels]. *)
Record heap : Type := {
  img : image;
  pixels : list pixel;
  flat_bits : list Z;
  new_pixels : list pixel
}.

(** [next(flat_bits)] *)
Definition next_flat_bit (h : heap) : option Z * heap :=
  match next (flat_bits h) with
  | None => (None, h)
  | Some (bit, it) =>
      (Some bit, {| img := img h; pixels := pixels h; flat_bits := it;
                    new_pixels := new_pixels h |})
  end.

(** [new_pixels.append(px)] *)
Definition append_new_pixel (px : pixel) (h : heap) : heap :=
  {| img := img h; pixels := pixels h; flat_bits := flat_bits h;
     new_pixels := new_pixels h ++ [px] |}.

(** The body of [for r, g, b in pixels:]. *)
Definition embed_pixel (h : heap) (px : pixel) : heap :=
  let '(r, g, b) := px in
  match next_flat_bit h with
  | (None, h) => append_new_pixel (r, g, b) h
  | (Some r_bit, h) =>
      let r := Z.lor (Z.land r 0xFE) r_bit in
      match next_flat_bit h with
      | (None, h) => append_new_pixel (r, g, b) h
      | (Some g_bit, h) =>
          let g := Z.lor (Z.land g 0xFE) g_bit in
          match next_flat_bit h with
          | (None, h) => append_new_pixel (r, g, b) h
          | (Some b_bit, h) =>
              let b := Z.lor (Z.land b 0xFE) b_bit in
              append_new_pixel (r, g, b) h
          end
      end
  end.

(** [img.putdata(new_pixels)] *)
Definition putdata (h : heap) : heap :=
  {| img := {| width := width (img h); height := height (img h);
               data := new_pixels h |};
     pixels := pixels h; flat_bits := flat_bits h; new_pixels := new_pixels h |}.

(** [embed_message] from [pixels = list(img.getdata())] to
    [img.putdata(new_pixels)]: the outcome and the objects as they are
    when the function returns or raises. *)
Definition embed_pixels (img0 : image) (message : text) : result unit * heap :=
  let h := {| img := img0; pixels := data img0; flat_bits := []; new_pixels := [] |} in
  match encode_utf8 message with
  | Raise e => (Raise e, h)
  | OK payload =>
      match _pack_length (len payload) with
      | Raise e => (Raise e, h)
      | OK header =>
          let payload_bits := _to_bits (header ++ payload) in
          let capacity_bits := len (pixels h) * 3 in
          if len payload_bits >? capacity_bits
          then (Raise (ValueError (too_large_message (capacity_bits / 8)
                                                     (len payload_bits / 8))), h)
          else
            let h := {| img := img h; pixels := pixels h; flat_bits := payload_bits;
                        new_pixels := [] |} in
            let h := fold_left embed_pixel (pixels h) h in
            (OK tt, putdata h)
      end
  end.

Section FileFormats.

(** Pillow's registry of file formats: what [save] does for each
    location. *)
Variable registry : list string -> save_as.

(** [d.mkdir(parents=True, exist_ok=True)] *)
Definition mkdir (d : list string) (w : world) : result unit * world :=
  if mkdir_blocked (files w) d (length d) then (Raise OSError, w)
  else (OK tt, {| files := files w; dirs := mkdir_parents d (dirs w) |}).

(** [img.save(p)]: the format is looked up before the file is opened for
    writing, which a directory at [p] refuses.  When the writer raises,
    [save] removes the file if opening it created it; a file that was
    there before is left with what the writer wrote. *)
Definition save (im : image) (p : list string) (w : world) : result unit * world :=
  match registry p with
  | unknown_extension ext => (Raise (ValueError ("unknown file extension: " +:+ ext)), w)
  | no_save_handler format => (Raise (KeyError format), w)
  | known_format save_handler =>
      if bool_decide (p ∈ dirs w) then (Raise OSError, w)
      else
        match save_handler im with
        | saved f => (OK tt, {| files := <[p := f]> (files w); dirs := dirs w |})
        | save_failed partial =>
            match files w !! p with
            | None => (Raise OSError, w)
            | Some _ =>
                (Raise OSError, {| files := <[p := partial]> (files w); dirs := dirs w |})
            end
        end
  end.

Definition embed_message (w : world) (input_path output_path : list string)
    (message : text) : result unit * world :=
  match Image_open w input_path with
  | Raise e => (Raise e, w)
  | OK img0 =>
      match embed_pixels img0 message with
      | (Raise e, _) => (Raise e, w)
      | (OK _, h) =>
          match mkdir (parent output_path) w with
          | (Raise e, w1) => (Raise e, w1)
          | (OK _, w1) => save (img h) output_path w1
          end
      end
  end.

(** [extract_message] after [pixels = list(img.getdata())]. *)
Definition extract_pixels (pixels : list pixel) : result text :=
  let bits :=
    fold_left (fun bits '(r, g, b) => bits ++ [Z.land r 1; Z.land g 1; Z.land b 1])
              pixels [] in
  let length_bits := slice bits 0 32 in
  let* length_bytes := _bits_to_bytes length_bits in
  let* message_length := _unpack_length length_bytes in
  let message_bit_count := message_length * 8 in
  let message_bits := slice bits 32 (32 + message_bit_count) in
  if len message_bits <? message_bit_count
  then Raise (ValueError "Image does not contain a complete message.")
  else
    let* message_bytes := _bits_to_bytes message_bits in
    OK (decode_utf8_replace message_bytes).

Definition extract_message (w : world) (input_path : list string) : result text :=
  let* img0 := Image_open w input_path in
  extract_pixels (data img0).

(** *** The command line *)

(** What [print] has written: a line made by the program, or a text
    printed as it is.  Standard output is taken to accept every text. *)
Inductive printed : Type :=
  | printed_line (s : string)
  | printed_text (msg : text).

(** The [argparse.Namespace] that [_parse_args] returns.  The arguments are
    strings as typed; [text] is the secret.  After [extract] the attributes
    [output_path] and [text] do not exist, and [main] does not read them. *)
Record Namespace : Type := {
  cmd : string;
  ns_input_path : string;
  ns_output_path : string;
  ns_text : text
}.

(** [pathlib.Path] on the file system: the location a path given as a
    string resolves to. *)
Variable Path : string -> list string.

(** [main] after [args = _parse_args(argv)]: the value returned or the
    exception that escapes, what was printed, and the file system. *)
Definition main (w : world) (args : Namespace) : result Z * list printed * world :=
  if String.eqb (cmd args) "embed" then
    match embed_message w (Path (ns_input_path args)) (Path (ns_output_path args))
                        (ns_text args) with
    | (Raise e, w') => (Raise e, [], w')
    | (OK _, w') =>
        match encode_utf8 (ns_text args) with
        | Raise e => (Raise e, [], w')
        | OK encoded =>
            (OK 0,
             [printed_line ("Embedded " +:+ format_int (len encoded) +:+ " bytes into "
                            +:+ ns_output_path args)],
             w')
        end
    end
  else if String.eqb (cmd args) "extract" then
    match extract_message w (Path (ns_input_path args)) with
    | Raise e => (Raise e, [], w)
    | OK msg => (OK 0, [printed_text msg], w)
    end
  else (OK 1, [], w).

End FileFormats.

End stego_tool.

(** ** [stego_bpp.py] *)

Module stego_bpp.
Import Py stego_tool.

(** The [BppResult] dictionary, over the type of [used_bpp], a Python
    [float]. *)
Record BppResult (float : Type) : Type := {
  width : Z;
  height : Z;
  pixels : Z;
  capacity_bits : Z;
  capacity_bytes : Z;
  header_bits : Z;
  payload_bits : Z;
  total_bits : Z;
  used_bpp : float;
  fits : bool
}.
Arguments width {float} _.
Arguments height {float} _.
Arguments pixels {float} _.
Arguments capacity_bits {float} _.
Arguments capacity_bytes {float} _.
Arguments header_bits {float} _.
Arguments payload_bits {float} _.
Arguments total_bits {float} _.
Arguments used_bpp {float} _.
Arguments fits {float} _.

Section Report.

(** Python's floats as far as [compute_bpp] uses them: the literal [0.0]
    and [a / b] on two integers. *)
Variable float : Type.
Variable float_zero : float.
Variable truediv : Z -> Z -> float.

Definition compute_bpp (w : world) (image_path : list string) (message : text)
    (bits_per_channel channels : Z) : result (BppResult float) :=
  let* img := Image_open w image_path in
  let width := stego_tool.width img in
  let height := stego_tool.height img in
  let pixels := width * height in
  let capacity_bits := pixels * channels * bits_per_channel in
  let header_bits := 32 in
  let* payload := encode_utf8 message in
  let payload_bits := len payload * 8 in
  let total_bits := header_bits + payload_bits in
  let used_bpp := if pixels =? 0 then float_zero else truediv total_bits pixels in
  OK {| width := width; height := height; pixels := pixels;
        capacity_bits := capacity_bits; capacity_bytes := capacity_bits / 8;
        header_bits := header_bits; payload_bits := payload_bits;
        total_bits := total_bits; used_bpp := used_bpp;
        fits := total_bits <=? capacity_bits |}.

(** The call [compute_bpp(image_path, message)] with the default
    [bits_per_channel=1, channels=3]. *)
Definition compute_bpp_default (w : world) (image_path : list string) (message : text)
    : result (BppResult float) :=
  compute_bpp w image_path message 1 3.

End Report.

End stego_bpp.

(** ** [stego_ui.py] *)

Module stego_ui.
Import Py stego_tool.

(** A [messagebox] call.  [showerror("Error", str(exc))] is kept with the
    exception whose text it shows. *)
Inductive dialog : Type :=
  | showwarning (title message : string)
  | showinfo (title message : string)
  | showerror (title : string) (exc : exn).

(** The widgets of [StegoApp] the two handlers read and write: the values
    of the four [StringVar]s they use and the content of the text box
    [extract_output]. *)
Record StegoApp : Type := {
  embed_input_var : string;
  embed_output_var : string;
  embed_text_var : text;
  extract_input_var : string;
  extract_output : text
}.

(** [bool(p)] for a [pathlib.Path]: the class defines neither [__bool__]
    nor [__len__], so every path is true. *)
Definition Path_bool (p : list string) : bool := true.

(** [bool(s)] for a [str]. *)
Definition str_bool (s : text) : bool :=
  match s with
  | [] => false
  | _ :: _ => true
  end.

Section Handlers.

(** Pillow's registry of formats, the location a path string resolves to,
    and [str(Path(s))]. *)
Variable registry : list string -> save_as.
Variable Path : string -> list string.
Variable Path_str : string -> string.

(** [StegoApp._handle_embed]: the dialogs shown and the file system. *)
Definition _handle_embed (w : world) (app : StegoApp) : list dialog * world :=
  let input_path := Path (embed_input_var app) in
  let output_path := Path (embed_output_var app) in
  let text := embed_text_var app in
  if negb (Path_bool input_path) || negb (Path_bool output_path) || negb (str_bool text)
  then ([showwarning "Missing info" "Please select input, output, and secret text."], w)
  else
    match embed_message registry w input_path output_path text with
    | (Raise exc, w') => ([showerror "Error" exc], w')
    | (OK _, w') =>
        match encode_utf8 text with
        | Raise exc => ([showerror "Error" exc], w')
        | OK encoded =>
            ([showinfo "Done" ("Embedded " +:+ format_int (len encoded)
                               +:+ " bytes into " +:+ Path_str (embed_output_var app))], w')
        end
    end.

(** [StegoApp._handle_extract]: the dialogs shown and the application with
    its text box as the handler leaves it. *)
Definition _handle_extract (w : world) (app : StegoApp) : list dialog * StegoApp :=
  let input_path := Path (extract_input_var app) in
  if negb (Path_bool input_path)
  then ([showwarning "Missing info" "Please select a stego image."], app)
  else
    match extract_message w input_path with
    | Raise exc => ([showerror "Error" exc], app)
    | OK recovered =>
        ([], {| embed_input_var := embed_input_var app;
                embed_output_var := embed_output_var app;
                embed_text_var := embed_text_var app;
                extract_input_var := extract_input_var app;
                extract_output := recovered |})
    end.

End Handlers.

End stego_ui.

(** ** The vocabulary of the specification *)

Import Py stego_tool.

(** The error taxonomy: each kind is the [ValueError] of one raise site. *)
Definition RangeError : exn := ValueError "Message length must fit in 32 bits".
Definition FormatError : exn := ValueError "Invalid length header".
Definition CapacityError (capacity_bytes needed_bytes : Z) : exn :=
  ValueError (too_large_message capacity_bytes needed_bytes).
Definition TruncatedDataError : exn :=
  ValueError "Image does not contain a complete message.".

(** The message a [ValueError] of the repository was raised with. *)
Definition exn_message (e : exn) : option string :=
  match e with
  | ValueError msg => Some msg
  | _ => None
  end.

(** The channel sequence of a pixel list: raster order, (R, G, B)
    interleaved. *)
Definition channels (ps : list pixel) : list Z :=
  p ← ps; [p.1.1; p.1.2; p.2].

Definition is_bit (b : Z) : Prop := b = 0 \/ b = 1.
Definition is_byte (c : Z) : Prop := 0 <= c <= 255.

Definition lsb (c : Z) : Z := Z.land c 1.
Definition set_lsb (c bit : Z) : Z := Z.lor (Z.land c 0xFE) bit.

(** Step 5 of embed in the words of the specification: entry [i] of the
    output is [set_lsb] of entry [i] and bit [i] while bits last, and the
    entry itself afterwards. *)
Fixpoint write_lsbs (bits cs : list Z) : list Z :=
  match bits, cs with
  | bit :: bits', c :: cs' => set_lsb c bit :: write_lsbs bits' cs'
  | _, _ => cs
  end.

(** [unpackBits] in the words of the specification: the bits are grouped by
    eight, most significant first, and an incomplete last group is
    dropped. *)
Fixpoint unpackBits (bits : list Z) : list Z :=
  match bits with
  | b7 :: b6 :: b5 :: b4 :: b3 :: b2 :: b1 :: b0 :: rest =>
      (128 * b7 + 64 * b6 + 32 * b5 + 16 * b4 + 8 * b3 + 4 * b2 + 2 * b1 + b0)
        :: unpackBits rest
  | _ => []
  end.

(** The bits of the frame of a payload: the 32-bit big-endian length, then
    the payload, every byte most significant bit first. *)
Definition frame_bits (payload : list Z) : list Z :=
  _to_bits (to_bytes4_big (len payload) ++ payload).

(** [len(message.encode("utf-8"))], and 0 for a text that cannot be
    encoded. *)
Definition utf8_len (message : text) : Z :=
  match encode_utf8 message with
  | OK payload => len payload
  | Raise _ => 0
  end.

(** The bits embed writes for a message: the frame of its UTF-8
    encoding. *)
Definition message_bits (message : text) : list Z :=
  match encode_utf8 message with
  | OK payload => frame_bits payload
  | Raise _ => []
  end.

(** The objects of [embed_message] before its first statement that can
    raise: the image is opened, [pixels] is read, nothing is produced. *)
Definition initial_heap (img0 : image) : heap :=
  {| img := img0; pixels := data img0; flat_bits := []; new_pixels := [] |}.

(** A registry for the examples, on file names in lower case: the
    lossless PNG and BMP writers, and no other format. *)
Definition png_bmp_registry (p : list string) : save_as :=
  match last p with
  | None => unknown_extension EmptyString
  | Some name =>
      let ext := splitext_ext name in
      if String.eqb ext ".png" || String.eqb ext ".bmp"
      then known_format (fun im => saved (image_file im))
      else unknown_extension ext
  end.

(** A format that keeps every pixel: the writer succeeds, and what it
    writes decodes to the image that was saved. *)
Definition lossless (s : save_as) : Prop :=
  exists save_handler,
    s = known_format save_handler /\ forall im, save_handler im = saved (image_file im).

(** A format whose writer takes every RGB image, whatever it keeps of
    it. *)
Definition saves (s : save_as) : Prop :=
  exists save_handler written_file,
    s = known_format save_handler /\ forall im, save_handler im = saved (written_file im).

(** The output location can be written: no ancestor of it is a regular
    file, and it is neither a directory nor the root. *)
Definition writable (w : world) (output_path : list string) : Prop :=
  mkdir_blocked (files w) (parent output_path) (length (parent output_path)) = false
  /\ (output_path ∉ dirs w)
  /\ output_path <> [].

(** The length field as extract reads it: the first 32 least-significant
    bits, packed into bytes and decoded. *)
Definition header_length (cs : list Z) : result Z :=
  let* length_bytes := _bits_to_bytes (lsb <$> slice cs 0 32) in
  _unpack_length length_bytes.

(** What a truncation report would have to show: the bits available after
    the header and the bits the header asks for. *)
Definition bits_available (cs : list Z) : Z := len cs - 32.
Definition bits_required (cs : list Z) : result Z :=
  let* message_length := header_length cs in OK (message_length * 8).

(** * Properties *)

(** ** Bit arithmetic *)

Ltac div_mod_lia := Z.div_mod_to_equations; lia.

Lemma land_1_mod c : Z.land c 1 = c mod 2.
Proof. change 1 with (Z.ones 1) at 1. rewrite Z.land_ones by lia. reflexivity. Qed.

Lemma land_255_mod c : Z.land c 255 = c mod 256.
Proof. change 255 with (Z.ones 8). rewrite Z.land_ones by lia. reflexivity. Qed.

Lemma land_shiftl_small a k b :
  0 <= k -> 0 <= b < 2 ^ k -> Z.land (Z.shiftl a k) b = 0.
Proof.
  intros Hk Hb. apply Z.bits_inj'. intros n Hn.
  rewrite Z.land_spec, Z.bits_0.
  destruct (Z.lt_ge_cases n k) as [Hlt | Hge].
  - rewrite Z.shiftl_spec_low by lia. reflexivity.
  - rewrite <- (Z.mod_small b (2 ^ k)) by lia.
    rewrite Z.mod_pow2_bits_high by lia. apply andb_false_r.
Qed.

Lemma lor_shiftl_small a k b :
  0 <= k -> 0 <= b < 2 ^ k -> Z.lor (Z.shiftl a k) b = a * 2 ^ k + b.
Proof.
  intros Hk Hb.
  rewrite <- Z.lxor_lor by (apply land_shiftl_small; assumption).
  rewrite <- Z.add_nocarry_lxor by (apply land_shiftl_small; assumption).
  rewrite Z.shiftl_mul_pow2 by lia. reflexivity.
Qed.

Lemma is_bit_range b : is_bit b <-> 0 <= b < 2.
Proof. unfold is_bit. lia. Qed.

Lemma push_bit c b : is_bit b -> Z.lor (Z.shiftl c 1) b = 2 * c + b.
Proof.
  intros Hb. rewrite lor_shiftl_small; [ lia | lia | ].
  apply is_bit_range in Hb. simpl. lia.
Qed.

Lemma land_254 c : Z.land c 0xFE = 2 * ((c / 2) mod 128).
Proof.
  change 0xFE with (Z.land (Z.lnot (Z.ones 1)) (Z.shiftl (Z.ones 7) 1)).
  rewrite Z.land_assoc, <- Z.ldiff_land, Z.ldiff_ones_r by lia.
  rewrite <- Z.shiftl_land, Z.land_ones by lia.
  rewrite Z.shiftl_mul_pow2, Z.shiftr_div_pow2 by lia.
  change (2 ^ 1) with 2. change (2 ^ 7) with 128. lia.
Qed.

Lemma set_lsb_arith c b : is_bit b -> set_lsb c b = 2 * ((c / 2) mod 128) + b.
Proof.
  intros Hb. unfold set_lsb. rewrite land_254.
  replace (2 * ((c / 2) mod 128)) with (Z.shiftl ((c / 2) mod 128) 1)
    by (rewrite Z.shiftl_mul_pow2 by lia; change (2 ^ 1) with 2; lia).
  rewrite push_bit by assumption. reflexivity.
Qed.

Lemma lsb_set_lsb c b : is_bit b -> lsb (set_lsb c b) = b.
Proof.
  intros Hb. unfold lsb. rewrite land_1_mod, set_lsb_arith by assumption.
  apply is_bit_range in Hb. div_mod_lia.
Qed.

Lemma set_lsb_byte c b : is_bit b -> is_byte (set_lsb c b).
Proof.
  intros Hb. rewrite set_lsb_arith by assumption.
  apply is_bit_range in Hb. unfold is_byte. div_mod_lia.
Qed.

Lemma set_lsb_high c b :
  is_byte c -> is_bit b -> Z.shiftr (set_lsb c b) 1 = Z.shiftr c 1.
Proof.
  intros Hc Hb. rewrite set_lsb_arith by assumption.
  rewrite !Z.shiftr_div_pow2 by lia. change (2 ^ 1) with 2.
  apply is_bit_range in Hb. unfold is_byte in Hc. div_mod_lia.
Qed.

Lemma lsb_is_bit c : is_bit (lsb c).
Proof. unfold lsb. rewrite land_1_mod. apply is_bit_range. div_mod_lia. Qed.

(** Range facts about bits and channel values, for [auto with stego]. *)
Create HintDb stego.
#[export] Hint Resolve lsb_is_bit set_lsb_byte : stego.

(** ** Packing bits into bytes *)

Lemma list_ind8 {A} (P : list A -> Prop) :
  (forall l, (length l < 8)%nat -> P l) ->
  (forall a b c d e f g h rest, P rest -> P (a :: b :: c :: d :: e :: f :: g :: h :: rest)) ->
  forall l, P l.
Proof.
  intros Hshort Hgroup l.
  remember (length l) as n eqn:Hn. revert l Hn.
  induction n as [n IH] using lt_wf_ind. intros l ->.
  destruct l as [|a [|b [|c [|d [|e [|f [|g [|h rest]]]]]]]];
    try (apply Hshort; simpl; lia).
  apply Hgroup. apply (IH (length rest)); [ simpl; lia | reflexivity ].
Qed.

(** Eight bits from an empty accumulator append one byte. *)
Lemma _bits_to_bytes_group out b7 b6 b5 b4 b3 b2 b1 b0 rest :
  is_bit b7 -> is_bit b6 -> is_bit b5 -> is_bit b4 ->
  is_bit b3 -> is_bit b2 -> is_bit b1 -> is_bit b0 ->
  for_each _bits_to_bytes_body (b7 :: b6 :: b5 :: b4 :: b3 :: b2 :: b1 :: b0 :: rest) (out, 0, 0)
  = for_each _bits_to_bytes_body rest
      (out ++ [128 * b7 + 64 * b6 + 32 * b5 + 16 * b4 + 8 * b3 + 4 * b2 + 2 * b1 + b0], 0, 0).
Proof.
  intros [-> | ->] [-> | ->] [-> | ->] [-> | ->] [-> | ->] [-> | ->] [-> | ->] [-> | ->];
    reflexivity.
Qed.

(** Fewer than eight bits never complete a byte. *)
Lemma _bits_to_bytes_short out bits :
  (length bits < 8)%nat ->
  exists current count, for_each _bits_to_bytes_body bits (out, 0, 0) = OK (out, current, count).
Proof.
  intros Hlen.
  destruct bits as [|a [|b [|c [|d [|e [|f [|g [|h rest]]]]]]]];
    try (simpl in Hlen; lia); do 2 eexists; reflexivity.
Qed.

Lemma unpackBits_short bits : (length bits < 8)%nat -> unpackBits bits = [].
Proof.
  intros Hlen.
  destruct bits as [|a [|b [|c [|d [|e [|f [|g [|h rest]]]]]]]];
    try reflexivity; simpl in Hlen; lia.
Qed.

Lemma _bits_to_bytes_loop bits :
  Forall is_bit bits ->
  forall out, exists current count,
    for_each _bits_to_bytes_body bits (out, 0, 0) = OK (out ++ unpackBits bits, current, count).
Proof.
  induction bits as [bits Hlen | b7 b6 b5 b4 b3 b2 b1 b0 rest IH] using list_ind8;
    intros Hbits out.
  - rewrite unpackBits_short, app_nil_r by assumption.
    apply _bits_to_bytes_short; assumption.
  - repeat match goal with H : Forall _ (_ :: _) |- _ => apply Forall_cons in H as [? H] end.
    rewrite _bits_to_bytes_group by assumption.
    match goal with |- context [ for_each _ rest (?out', _, _) ] =>
      destruct (IH Hbits out') as (current & count & ->) end.
    exists current, count. cbn [unpackBits]. rewrite <- app_assoc. reflexivity.
Qed.

Lemma _bits_to_bytes_unpackBits bits :
  Forall is_bit bits -> _bits_to_bytes bits = OK (unpackBits bits).
Proof.
  intros Hbits. unfold _bits_to_bytes.
  destruct (_bits_to_bytes_loop bits Hbits []) as (current & count & ->).
  reflexivity.
Qed.

Lemma unpackBits_length bits : length (unpackBits bits) = (length bits / 8)%nat.
Proof.
  induction bits as [bits Hlen | b7 b6 b5 b4 b3 b2 b1 b0 rest IH] using list_ind8.
  - rewrite unpackBits_short by assumption. symmetry. apply Nat.div_small. assumption.
  - cbn [unpackBits length]. rewrite IH.
    change (S (S (S (S (S (S (S (S (length rest))))))))) with (8 + length rest)%nat.
    replace (8 + length rest)%nat with (length rest + 1 * 8)%nat by lia.
    rewrite Nat.div_add by lia. lia.
Qed.

Lemma unpackBits_app_short full tail :
  (length full mod 8 = 0)%nat -> (length tail < 8)%nat ->
  unpackBits (full ++ tail) = unpackBits full.
Proof.
  induction full as [full Hlen | b7 b6 b5 b4 b3 b2 b1 b0 rest IH] using list_ind8;
    intros Hmod Htail.
  - rewrite Nat.mod_small in Hmod by assumption.
    apply nil_length_inv in Hmod. subst full. simpl. apply unpackBits_short. assumption.
  - cbn [app unpackBits]. f_equal. apply IH; [ | assumption ].
    cbn [length] in Hmod.
    change (S (S (S (S (S (S (S (S (length rest))))))))) with (8 + length rest)%nat in Hmod.
    replace (8 + length rest)%nat with (length rest + 1 * 8)%nat in Hmod by lia.
    rewrite Nat.Div0.mod_add in Hmod. assumption.
Qed.

Lemma unpackBits_take bits :
  unpackBits bits = unpackBits (take (8 * (length bits / 8)) bits).
Proof.
  rewrite <- (take_drop (8 * (length bits / 8)) bits) at 1.
  pose proof (Nat.div_mod_eq (length bits) 8) as Hdm.
  pose proof (Nat.mod_upper_bound (length bits) 8) as Hub.
  apply unpackBits_app_short.
  - rewrite length_take. rewrite Nat.min_l by lia.
    rewrite Nat.mul_comm. apply Nat.Div0.mod_mul.
  - rewrite length_drop. lia.
Qed.

(** ** The bit codec and the length header *)

Lemma _to_bits_cons byte data :
  _to_bits (byte :: data)
  = [Z.land (Z.shiftr byte 7) 1; Z.land (Z.shiftr byte 6) 1; Z.land (Z.shiftr byte 5) 1;
     Z.land (Z.shiftr byte 4) 1; Z.land (Z.shiftr byte 3) 1; Z.land (Z.shiftr byte 2) 1;
     Z.land (Z.shiftr byte 1) 1; Z.land (Z.shiftr byte 0) 1] ++ _to_bits data.
Proof. reflexivity. Qed.

Lemma _to_bits_app d1 d2 : _to_bits (d1 ++ d2) = _to_bits d1 ++ _to_bits d2.
Proof. unfold _to_bits. apply bind_app. Qed.

Lemma _to_bits_length data : length (_to_bits data) = (8 * length data)%nat.
Proof.
  induction data as [|byte data IH]; [ reflexivity | ].
  rewrite _to_bits_cons, length_app, IH. simpl. lia.
Qed.

Lemma _to_bits_len data : len (_to_bits data) = 8 * len data.
Proof. unfold len. rewrite _to_bits_length. lia. Qed.

Lemma _to_bits_is_bit data : Forall is_bit (_to_bits data).
Proof.
  induction data as [|byte data IH]; [ constructor | ].
  rewrite _to_bits_cons. apply Forall_app. split; [ | assumption ].
  repeat (apply Forall_cons_2; [ apply lsb_is_bit | ]). apply Forall_nil_2.
Qed.

#[export] Hint Resolve _to_bits_is_bit : stego.

Lemma bit_of_byte byte k : 0 <= k -> Z.land (Z.shiftr byte k) 1 = (byte / 2 ^ k) mod 2.
Proof. intros Hk. rewrite land_1_mod, Z.shiftr_div_pow2 by assumption. reflexivity. Qed.

Lemma unpackBits_to_bits data : Forall is_byte data -> unpackBits (_to_bits data) = data.
Proof.
  induction 1 as [|byte data Hbyte _ IH]; [ reflexivity | ].
  rewrite _to_bits_cons. cbn [app unpackBits]. rewrite IH. f_equal.
  rewrite !bit_of_byte by lia.
  change (2 ^ 7) with 128. change (2 ^ 6) with 64. change (2 ^ 5) with 32.
  change (2 ^ 4) with 16. change (2 ^ 3) with 8. change (2 ^ 2) with 4.
  change (2 ^ 1) with 2. change (2 ^ 0) with 1.
  unfold is_byte in Hbyte. div_mod_lia.
Qed.

(** *** The length header *)

Lemma to_bytes4_big_arith n :
  to_bytes4_big n
  = [(n / 16777216) mod 256; (n / 65536) mod 256; (n / 256) mod 256; n mod 256].
Proof.
  unfold to_bytes4_big. rewrite !land_255_mod, !Z.shiftr_div_pow2 by lia. reflexivity.
Qed.

Lemma to_bytes4_big_is_byte n : Forall is_byte (to_bytes4_big n).
Proof.
  rewrite to_bytes4_big_arith. unfold is_byte.
  repeat (apply Forall_cons_2; [ div_mod_lia | ]). apply Forall_nil_2.
Qed.

#[export] Hint Resolve to_bytes4_big_is_byte : stego.

Lemma from_bytes_big_4 b3 b2 b1 b0 :
  is_byte b3 -> is_byte b2 -> is_byte b1 -> is_byte b0 ->
  from_bytes_big [b3; b2; b1; b0] = ((b3 * 256 + b2) * 256 + b1) * 256 + b0.
Proof.
  unfold is_byte, from_bytes_big. intros H3 H2 H1 H0. cbn [fold_left].
  rewrite !lor_shiftl_small by (change (2 ^ 8) with 256; lia).
  change (2 ^ 8) with 256. lia.
Qed.

Lemma from_to_bytes4_big n : 0 <= n <= 0xFFFFFFFF -> from_bytes_big (to_bytes4_big n) = n.
Proof.
  intros Hn. pose proof (to_bytes4_big_is_byte n) as Hb.
  rewrite to_bytes4_big_arith in *.
  repeat match goal with H : Forall _ (_ :: _) |- _ => apply Forall_cons in H as [? H] end.
  rewrite from_bytes_big_4 by assumption. div_mod_lia.
Qed.

Lemma _pack_length_ok n : 0 <= n <= 0xFFFFFFFF -> _pack_length n = OK (to_bytes4_big n).
Proof.
  intros Hn. unfold _pack_length.
  destruct (Z.ltb_spec n 0); [ lia | ].
  destruct (Z.gtb_spec n 0xFFFFFFFF); [ lia | ]. reflexivity.
Qed.

Lemma _pack_length_too_long n :
  0xFFFFFFFF < n -> _pack_length n = Raise (ValueError "Message length must fit in 32 bits").
Proof.
  intros Hn. unfold _pack_length.
  destruct (Z.ltb_spec n 0); [ lia | ].
  destruct (Z.gtb_spec n 0xFFFFFFFF); [ | lia ]. reflexivity.
Qed.

Lemma _unpack_length_short bs :
  (length bs < 4)%nat -> _unpack_length bs = Raise (ValueError "Invalid length header").
Proof.
  intros Hlen. unfold _unpack_length, len.
  destruct (Z.eqb_spec (Z.of_nat (length bs)) 4); [ lia | reflexivity ].
Qed.

Lemma _unpack_length_4 bs :
  length bs = 4%nat -> _unpack_length bs = OK (from_bytes_big bs).
Proof.
  intros Hlen. unfold _unpack_length, len. rewrite Hlen. reflexivity.
Qed.

(** The header codec inverts itself: whatever [_pack_length] returns,
    [_unpack_length] decodes to the packed length. *)
Lemma _unpack_pack_length n header :
  _pack_length n = OK header -> _unpack_length header = OK n.
Proof.
  unfold _pack_length. intros Hpack.
  destruct (Z.ltb_spec n 0); [ discriminate | ].
  destruct (Z.gtb_spec n 0xFFFFFFFF); [ discriminate | ].
  injection Hpack as <-.
  rewrite _unpack_length_4 by reflexivity.
  rewrite from_to_bytes4_big by lia. reflexivity.
Qed.

Lemma unpackBits_is_byte bits : Forall is_bit bits -> Forall is_byte (unpackBits bits).
Proof.
  induction bits as [bits Hlen | b7 b6 b5 b4 b3 b2 b1 b0 rest IH] using list_ind8;
    intros Hbits.
  - rewrite unpackBits_short by assumption. apply Forall_nil_2.
  - repeat match goal with H : Forall _ (_ :: _) |- _ => apply Forall_cons in H as [? H] end.
    cbn [unpackBits]. apply Forall_cons_2; [ | auto ].
    unfold is_bit, is_byte in *. lia.
Qed.

#[export] Hint Resolve unpackBits_is_byte : stego.

Lemma from_bytes_big_range bs :
  length bs = 4%nat -> Forall is_byte bs -> 0 <= from_bytes_big bs <= 0xFFFFFFFF.
Proof.
  intros Hlen Hbs.
  destruct bs as [|b3 [|b2 [|b1 [|b0 [|]]]]]; try discriminate Hlen.
  repeat match goal with H : Forall _ (_ :: _) |- _ => apply Forall_cons in H as [? H] end.
  rewrite from_bytes_big_4 by assumption. unfold is_byte in *. lia.
Qed.

(** *** UTF-8 *)

Ltac decide_tests :=
  repeat match goal with
    | |- context [ ?a <? ?b ] => destruct (Z.ltb_spec a b); try lia
    | |- context [ ?a <=? ?b ] => destruct (Z.leb_spec a b); try lia
    | |- context [ ?a =? ?b ] => destruct (Z.eqb_spec a b); try lia
    end.

Lemma encode_utf8_cp_scalar c :
  scalar c ->
  exists bs, encode_utf8_cp c = OK bs /\ Forall is_byte bs /\ bs <> [] /\
    forall rest, decode_utf8_replace (bs ++ rest) = c :: decode_utf8_replace rest.
Proof.
  intros [Hrange Hsurr]. unfold encode_utf8_cp.
  destruct (Z.ltb_spec c 0x80); [ | destruct (Z.ltb_spec c 0x800);
    [ | destruct (Z.ltb_spec c 0x10000) ] ].
  - exists [c]. (split; [ reflexivity | split; [ | split; [ discriminate | ] ] ]).
    + apply Forall_cons_2; [ unfold is_byte; lia | apply Forall_nil_2 ].
    + intros rest. cbn [app decode_utf8_replace]. decide_tests. reflexivity.
  - eexists. (split; [ reflexivity | split; [ | split; [ discriminate | ] ] ]).
    + unfold is_byte. repeat (apply Forall_cons_2; [ div_mod_lia | ]). apply Forall_nil_2.
    + intros rest. cbn [app decode_utf8_replace]. unfold is_continuation.
      assert (0 <= c mod 64 < 64) by div_mod_lia.
      assert (2 <= c / 64 < 32) by div_mod_lia.
      decide_tests. cbn [andb]. f_equal. div_mod_lia.
  - destruct (Z.leb_spec 0xD800 c); cbn [andb];
      [ destruct (Z.leb_spec c 0xDFFF); [ lia | ] | ].
    all: eexists; (split; [ reflexivity | split; [ | split; [ discriminate | ] ] ]).
    all: try (unfold is_byte; repeat (apply Forall_cons_2; [ div_mod_lia | ]); apply Forall_nil_2).
    all: intros rest; cbn [app decode_utf8_replace]; unfold is_continuation.
    all: assert (0 <= c mod 64 < 64) by div_mod_lia.
    all: assert (0 <= (c / 64) mod 64 < 64) by div_mod_lia.
    all: assert (0 <= c / 4096 < 16) by div_mod_lia.
    all: assert (c / 4096 = 0 -> 32 <= (c / 64) mod 64) by div_mod_lia.
    all: assert (c / 4096 = 13 -> (c / 64) mod 64 < 32) by div_mod_lia.
    all: decide_tests; cbn [andb orb negb]; f_equal; div_mod_lia.
  - eexists. (split; [ reflexivity | split; [ | split; [ discriminate | ] ] ]).
    + unfold is_byte. repeat (apply Forall_cons_2; [ div_mod_lia | ]). apply Forall_nil_2.
    + intros rest. cbn [app decode_utf8_replace]. unfold is_continuation.
      assert (0 <= c mod 64 < 64) by div_mod_lia.
      assert (0 <= (c / 64) mod 64 < 64) by div_mod_lia.
      assert (0 <= (c / 4096) mod 64 < 64) by div_mod_lia.
      assert (0 <= c / 262144 < 5) by div_mod_lia.
      assert (c / 262144 = 0 -> 16 <= (c / 4096) mod 64) by div_mod_lia.
      assert (c / 262144 = 4 -> (c / 4096) mod 64 < 16) by div_mod_lia.
      decide_tests; cbn [andb orb negb]; f_equal; div_mod_lia.
Qed.

Lemma encode_utf8_scalar s :
  Forall scalar s ->
  exists bs, encode_utf8 s = OK bs /\ Forall is_byte bs /\ decode_utf8_replace bs = s.
Proof.
  induction 1 as [|c s Hc _ (bs' & Henc' & Hbytes' & Hdec')].
  - exists []. repeat split. apply Forall_nil_2.
  - destruct (encode_utf8_cp_scalar c Hc) as (bs & Henc & Hbytes & _ & Hdec).
    exists (bs ++ bs'). cbn [encode_utf8]. rewrite Henc, Henc'. repeat split.
    + apply Forall_app. split; assumption.
    + rewrite Hdec, Hdec'. reflexivity.
Qed.

(** ** Channel sequences and the embedding loop *)

Lemma channels_cons r g b ps : channels ((r, g, b) :: ps) = r :: g :: b :: channels ps.
Proof. reflexivity. Qed.

Lemma channels_length ps : length (channels ps) = (3 * length ps)%nat.
Proof.
  induction ps as [|[[r g] b] ps IH]; [ reflexivity | ].
  rewrite channels_cons. cbn [length]. rewrite IH. lia.
Qed.

Lemma write_lsbs_nil cs : write_lsbs [] cs = cs.
Proof. destruct cs; reflexivity. Qed.

Lemma write_lsbs_length bits cs : length (write_lsbs bits cs) = length cs.
Proof.
  revert cs. induction bits as [|bit bits IH]; intros [|c cs]; cbn [write_lsbs length]; auto.
Qed.

Lemma write_lsbs_lookup_lt bits cs i bit c :
  bits !! i = Some bit -> cs !! i = Some c ->
  write_lsbs bits cs !! i = Some (set_lsb c bit).
Proof.
  revert cs i. induction bits as [|bit0 bits IH]; intros [|c0 cs] [|i] Hb Hc;
    try discriminate; cbn [write_lsbs] in *.
  - injection Hb as ->. injection Hc as ->. reflexivity.
  - apply IH; assumption.
Qed.

Lemma write_lsbs_lookup_ge bits cs i :
  (length bits <= i)%nat -> write_lsbs bits cs !! i = cs !! i.
Proof.
  revert cs i. induction bits as [|bit0 bits IH]; intros cs i Hi.
  - rewrite write_lsbs_nil. reflexivity.
  - destruct cs as [|c0 cs]; [ reflexivity | ].
    destruct i as [|i]; [ simpl in Hi; lia | ].
    simpl in Hi. exact (IH cs i ltac:(lia)).
Qed.

Lemma write_lsbs_drop bits cs :
  drop (length bits) (write_lsbs bits cs) = drop (length bits) cs.
Proof.
  revert cs. induction bits as [|bit bits IH]; intros cs.
  - rewrite write_lsbs_nil. reflexivity.
  - destruct cs as [|c cs]; [ reflexivity | ]. cbn [write_lsbs length drop]. apply IH.
Qed.

Lemma write_lsbs_take_lsb bits cs :
  Forall is_bit bits -> (length bits <= length cs)%nat ->
  lsb <$> take (length bits) (write_lsbs bits cs) = bits.
Proof.
  intros Hbits. revert cs.
  induction Hbits as [|bit bits Hbit _ IH]; intros cs Hlen; [ reflexivity | ].
  destruct cs as [|c cs]; [ simpl in Hlen; lia | ].
  cbn [write_lsbs length take fmap list_fmap].
  rewrite lsb_set_lsb by assumption. f_equal. apply IH. simpl in Hlen. lia.
Qed.

Lemma write_lsbs_is_byte bits cs :
  Forall is_bit bits -> Forall is_byte cs -> Forall is_byte (write_lsbs bits cs).
Proof.
  intros Hbits. revert cs.
  induction Hbits as [|bit bits Hbit _ IH]; intros cs Hcs.
  - rewrite write_lsbs_nil. assumption.
  - destruct cs as [|c cs]; [ assumption | ].
    apply Forall_cons in Hcs as [_ Hcs]. cbn [write_lsbs].
    apply Forall_cons_2; [ apply set_lsb_byte; assumption | auto ].
Qed.

#[export] Hint Resolve write_lsbs_is_byte : stego.

(** *** The embedding loop *)

Lemma embed_loop ps : forall h,
  exists ps',
    fold_left embed_pixel ps h
    = {| img := img h; pixels := pixels h;
         flat_bits := drop (3 * length ps) (flat_bits h);
         new_pixels := new_pixels h ++ ps' |}
    /\ channels ps' = write_lsbs (flat_bits h) (channels ps)
    /\ length ps' = length ps.
Proof.
  induction ps as [|[[r g] b] ps IH]; intros h.
  - exists []. destruct h as [im pxs bits nps]. cbn. rewrite app_nil_r.
    repeat split. destruct bits; reflexivity.
  - cbn [fold_left].
    destruct h as [im pxs bits nps].
    destruct bits as [|r_bit [|g_bit [|b_bit bits]]];
      cbn [embed_pixel next_flat_bit next flat_bits img pixels new_pixels append_new_pixel].
    all: match goal with |- context [ fold_left embed_pixel _ ?h' ] =>
           destruct (IH h') as (ps' & -> & Hch & Hlen) end.
    all: cbn [img pixels flat_bits new_pixels append_new_pixel] in *.
    all: eexists (_ :: ps'); split; [ | split ];
      [ rewrite <- app_assoc; cbn [app]; f_equal
      | rewrite channels_cons, Hch; cbn [write_lsbs]; rewrite ?write_lsbs_nil; reflexivity
      | cbn [length]; rewrite Hlen; reflexivity ].
    all: replace (3 * length ((r, g, b) :: ps))%nat with (S (S (S (3 * length ps))))
           by (cbn [length]; lia).
    all: cbn [drop]; rewrite ?drop_nil; reflexivity.
Qed.

(** ** The outcomes of embed *)

Lemma frame_bits_len payload : len (frame_bits payload) = 32 + 8 * len payload.
Proof.
  unfold frame_bits. rewrite _to_bits_len. unfold len.
  rewrite length_app. cbn [to_bytes4_big length]. lia.
Qed.

Lemma frame_bits_is_bit payload : Forall is_bit (frame_bits payload).
Proof. unfold frame_bits. auto with stego. Qed.

#[export] Hint Resolve frame_bits_is_bit : stego.

Lemma channels_len ps : len (channels ps) = len ps * 3.
Proof. unfold len. rewrite channels_length. lia. Qed.


Section EmbedOutcome.
Variables (img0 : image) (message : text) (payload : list Z).
Hypothesis Hencode : encode_utf8 message = OK payload.

Lemma embed_pixels_too_long :
  0xFFFFFFFF < len payload ->
  embed_pixels img0 message = (Raise RangeError, initial_heap img0).
Proof.
  intros Hlen. unfold embed_pixels. rewrite Hencode.
  rewrite _pack_length_too_long by assumption. reflexivity.
Qed.

Hypothesis Hlen : len payload <= 0xFFFFFFFF.

Lemma embed_pixels_too_large :
  len (channels (data img0)) < 32 + 8 * len payload ->
  embed_pixels img0 message
  = (Raise (CapacityError (len (channels (data img0)) / 8) (4 + len payload)),
     initial_heap img0).
Proof.
  intros Hcap. unfold embed_pixels. rewrite Hencode.
  rewrite _pack_length_ok by (unfold len in *; lia).
  fold (frame_bits payload). cbn [pixels].
  rewrite frame_bits_len, <- channels_len.
  destruct (Z.gtb_spec (32 + 8 * len payload) (len (channels (data img0)))); [ | lia ].
  unfold CapacityError, initial_heap.
  replace ((32 + 8 * len payload) / 8) with (4 + len payload) by div_mod_lia.
  reflexivity.
Qed.

Lemma embed_pixels_fits :
  32 + 8 * len payload <= len (channels (data img0)) ->
  exists ps rest,
    embed_pixels img0 message
    = (OK tt, {| img := {| width := width img0; height := height img0; data := ps |};
                 pixels := data img0; flat_bits := rest; new_pixels := ps |})
    /\ channels ps = write_lsbs (frame_bits payload) (channels (data img0))
    /\ length ps = length (data img0).
Proof.
  intros Hcap. unfold embed_pixels. rewrite Hencode.
  rewrite _pack_length_ok by (unfold len in *; lia).
  fold (frame_bits payload). cbn [pixels].
  rewrite frame_bits_len, <- channels_len.
  destruct (Z.gtb_spec (32 + 8 * len payload) (len (channels (data img0)))); [ lia | ].
  match goal with |- context [ fold_left embed_pixel ?ps ?h ] =>
    destruct (embed_loop ps h) as (ps' & -> & Hch & Hlen') end.
  cbn [img pixels flat_bits new_pixels app] in *.
  eexists ps', _. split; [ reflexivity | auto ].
Qed.
End EmbedOutcome.

(** The three outcomes of [embed_pixels] on a text that can be encoded. *)
Lemma embed_pixels_cases img0 message payload :
  encode_utf8 message = OK payload ->
  forall r h, embed_pixels img0 message = (r, h) ->
    (r = Raise RangeError /\ h = initial_heap img0 /\ 0xFFFFFFFF < len payload)
    \/ (r = Raise (CapacityError (len (channels (data img0)) / 8) (4 + len payload))
        /\ h = initial_heap img0
        /\ len payload <= 0xFFFFFFFF /\ len (channels (data img0)) < 32 + 8 * len payload)
    \/ (r = OK tt /\ pixels h = data img0 /\ data (img h) = new_pixels h
        /\ channels (new_pixels h) = write_lsbs (frame_bits payload) (channels (data img0))
        /\ length (new_pixels h) = length (data img0)
        /\ len payload <= 0xFFFFFFFF /\ 32 + 8 * len payload <= len (channels (data img0))).
Proof.
  intros Henc r h Hrun.
  destruct (Z.lt_ge_cases 0xFFFFFFFF (len payload)) as [Hlong | Hlen].
  - left. rewrite (embed_pixels_too_long _ _ _ Henc Hlong) in Hrun.
    injection Hrun as <- <-. auto.
  - right.
    destruct (Z.lt_ge_cases (len (channels (data img0))) (32 + 8 * len payload))
      as [Hcap | Hcap].
    + left. rewrite (embed_pixels_too_large _ _ _ Henc ltac:(lia) Hcap) in Hrun.
      injection Hrun as <- <-. repeat split; auto; lia.
    + right.
      destruct (embed_pixels_fits img0 _ _ Henc ltac:(lia) ltac:(lia))
        as (ps & rest & Heq & Hch & Hlen').
      rewrite Heq in Hrun. injection Hrun as <- <-. cbn [pixels img data new_pixels].
      repeat split; auto; lia.
Qed.

Lemma embed_pixels_raise_encode img0 message e :
  encode_utf8 message = Raise e ->
  embed_pixels img0 message = (Raise e, initial_heap img0).
Proof. intros Henc. unfold embed_pixels. rewrite Henc. reflexivity. Qed.

Lemma RangeError_not_CapacityError c n : RangeError <> CapacityError c n.
Proof. unfold RangeError, CapacityError, too_large_message. cbn. discriminate. Qed.

Lemma FormatError_not_TruncatedDataError : FormatError <> TruncatedDataError.
Proof. discriminate. Qed.

(** ** Extract *)

(** *** Slices *)

Lemma slice_take_drop {A} (l : list A) lo hi :
  0 <= lo <= hi -> slice l lo hi = take (Z.to_nat (hi - lo)) (drop (Z.to_nat lo) l).
Proof.
  intros Hb. unfold slice, len.
  destruct (Z.le_gt_cases (Z.of_nat (length l)) lo) as [Hout | Hin].
  - rewrite !Z.min_r by lia.
    rewrite !drop_ge by lia. rewrite !take_nil. reflexivity.
  - rewrite (Z.min_l lo) by lia.
    destruct (Z.le_gt_cases hi (Z.of_nat (length l))) as [Hhi | Hhi].
    + rewrite Z.min_l by lia. reflexivity.
    + rewrite Z.min_r by lia.
      rewrite !take_ge by (rewrite length_drop; lia). reflexivity.
Qed.

Lemma slice_prefix {A} (l : list A) n : 0 <= n -> slice l 0 n = take (Z.to_nat n) l.
Proof. intros Hn. rewrite slice_take_drop by lia. rewrite Z.sub_0_r. reflexivity. Qed.

Lemma slice_fmap {A B} (f : A -> B) (l : list A) lo hi :
  f <$> slice l lo hi = slice (f <$> l) lo hi.
Proof. unfold slice, len. rewrite length_fmap, fmap_take, fmap_drop. reflexivity. Qed.

(** *** Reading the bits back *)

Lemma extract_bits_loop (ps : list pixel) : forall acc,
  fold_left (fun bits '(r, g, b) => bits ++ [Z.land r 1; Z.land g 1; Z.land b 1]) ps acc
  = acc ++ (lsb <$> channels ps).
Proof.
  induction ps as [|[[r g] b] ps IH]; intros acc; cbn [fold_left].
  - cbn. rewrite app_nil_r. reflexivity.
  - rewrite IH, channels_cons. cbn [fmap list_fmap]. rewrite <- app_assoc. reflexivity.
Qed.

Lemma lsb_fmap_is_bit cs : Forall is_bit (lsb <$> cs).
Proof. apply Forall_fmap, Forall_forall. intros c _. apply lsb_is_bit. Qed.

#[export] Hint Resolve lsb_fmap_is_bit : stego.

Lemma header_length_short cs : len cs < 32 -> header_length cs = Raise FormatError.
Proof.
  intros Hlen. unfold header_length.
  rewrite _bits_to_bytes_unpackBits by auto with stego. cbn [bind].
  apply _unpack_length_short.
  rewrite unpackBits_length, length_fmap, slice_prefix, length_take by lia.
  unfold len in Hlen.
  apply Nat.Div0.div_lt_upper_bound. lia.
Qed.

Lemma header_length_ok cs :
  32 <= len cs ->
  header_length cs = OK (from_bytes_big (unpackBits (lsb <$> take 32 cs)))
  /\ 0 <= from_bytes_big (unpackBits (lsb <$> take 32 cs)) <= 0xFFFFFFFF.
Proof.
  intros Hlen. unfold header_length.
  rewrite _bits_to_bytes_unpackBits by auto with stego. cbn [bind].
  rewrite slice_prefix by lia. change (Z.to_nat 32) with 32%nat.
  assert (Hlen4 : length (unpackBits (lsb <$> take 32 cs)) = 4%nat).
  { rewrite unpackBits_length, length_fmap, length_take.
    unfold len in Hlen. rewrite Nat.min_l by lia. reflexivity. }
  split.
  - apply _unpack_length_4. assumption.
  - apply from_bytes_big_range; [ assumption | ].
    auto with stego.
Qed.

Lemma header_length_inv cs L :
  header_length cs = OK L ->
  32 <= len cs /\ 0 <= L <= 0xFFFFFFFF
  /\ L = from_bytes_big (unpackBits (lsb <$> take 32 cs)).
Proof.
  intros Hhdr. destruct (Z.lt_ge_cases (len cs) 32) as [Hshort | Hlong].
  - rewrite header_length_short in Hhdr by assumption. discriminate.
  - destruct (header_length_ok cs Hlong) as [Heq Hrange].
    rewrite Heq in Hhdr. injection Hhdr as <-. auto.
Qed.

(** [extract_pixels] in terms of the channel sequence. *)
Lemma extract_pixels_unfold ps :
  extract_pixels ps
  = let cs := channels ps in
    let* message_length := header_length cs in
    let message_bits := lsb <$> slice cs 32 (32 + message_length * 8) in
    if len message_bits <? message_length * 8 then Raise TruncatedDataError
    else let* message_bytes := _bits_to_bytes message_bits in
         OK (decode_utf8_replace message_bytes).
Proof.
  unfold extract_pixels, header_length. rewrite extract_bits_loop. cbn [app].
  cbv zeta. rewrite (slice_fmap lsb (channels ps) 0 32).
  destruct (_bits_to_bytes (slice (lsb <$> channels ps) 0 32)) as [bs | e];
    cbn [bind]; [ | reflexivity ].
  destruct (_unpack_length bs) as [L | e]; cbn [bind]; [ | reflexivity ].
  rewrite !slice_fmap. reflexivity.
Qed.

Lemma extract_pixels_short ps :
  len (channels ps) < 32 -> extract_pixels ps = Raise FormatError.
Proof.
  intros Hlen. rewrite extract_pixels_unfold. cbv zeta.
  rewrite header_length_short by assumption. reflexivity.
Qed.

Lemma extract_pixels_truncated ps L :
  header_length (channels ps) = OK L ->
  len (channels ps) - 32 < L * 8 ->
  extract_pixels ps = Raise TruncatedDataError.
Proof.
  intros Hhdr Htrunc. rewrite extract_pixels_unfold. cbv zeta. rewrite Hhdr. cbn [bind].
  apply header_length_inv in Hhdr as (Hlen & HL & _).
  rewrite slice_take_drop by lia.
  unfold len in *. rewrite length_fmap, length_take, length_drop.
  match goal with |- context [ ?a <? ?b ] => destruct (Z.ltb_spec a b) end;
    [ reflexivity | lia ].
Qed.

Lemma extract_pixels_complete ps L :
  header_length (channels ps) = OK L ->
  L * 8 <= len (channels ps) - 32 ->
  extract_pixels ps
  = OK (decode_utf8_replace (unpackBits (lsb <$> take (Z.to_nat (L * 8)) (drop 32 (channels ps))))).
Proof.
  intros Hhdr Hfull. rewrite extract_pixels_unfold. cbv zeta. rewrite Hhdr. cbn [bind].
  apply header_length_inv in Hhdr as (Hlen & HL & _).
  rewrite slice_take_drop by lia.
  replace (32 + L * 8 - 32) with (L * 8) by lia. change (Z.to_nat 32) with 32%nat.
  rewrite _bits_to_bytes_unpackBits by auto with stego. cbn [bind].
  unfold len in *. rewrite length_fmap, length_take, length_drop.
  match goal with |- context [ ?a <? ?b ] => destruct (Z.ltb_spec a b) end;
    [ lia | reflexivity ].
Qed.

(** ** Reading a frame back *)

Lemma lsb_write_lsbs bits cs :
  Forall is_bit bits -> (length bits <= length cs)%nat ->
  lsb <$> write_lsbs bits cs = bits ++ (lsb <$> drop (length bits) cs).
Proof.
  intros Hbits Hlen.
  rewrite <- (take_drop (length bits) (write_lsbs bits cs)) at 1.
  rewrite fmap_app, write_lsbs_take_lsb, write_lsbs_drop by assumption. reflexivity.
Qed.

Lemma utf8_len_eq message payload :
  encode_utf8 message = OK payload -> utf8_len message = len payload.
Proof. intros Henc. unfold utf8_len. rewrite Henc. reflexivity. Qed.

(** What extract reads from a sequence that carries the frame of [payload]
    in its least-significant bits. *)
Lemma extract_pixels_frame ps payload tail :
  Forall is_byte payload -> len payload <= 0xFFFFFFFF ->
  lsb <$> channels ps = frame_bits payload ++ tail ->
  extract_pixels ps = OK (decode_utf8_replace payload).
Proof.
  intros Hbytes Hlen Hlsb.
  assert (Hflen : length (frame_bits payload) = (32 + 8 * length payload)%nat).
  { pose proof (frame_bits_len payload) as H. unfold len in H. lia. }
  assert (Hclen : length (channels ps) = (32 + 8 * length payload + length tail)%nat).
  { rewrite <- (length_fmap lsb), Hlsb, length_app, Hflen. reflexivity. }
  assert (Hsplit : lsb <$> channels ps
                   = _to_bits (to_bytes4_big (len payload)) ++ _to_bits payload ++ tail).
  { rewrite Hlsb. unfold frame_bits. rewrite _to_bits_app, <- app_assoc. reflexivity. }
  assert (Hhdr : header_length (channels ps) = OK (len payload)).
  { destruct (header_length_ok (channels ps)) as [-> _]; [ unfold len; lia | ].
    rewrite fmap_take, Hsplit.
    rewrite take_app_length' by (rewrite _to_bits_length; reflexivity).
    rewrite unpackBits_to_bits by auto with stego.
    rewrite from_to_bytes4_big by (unfold len in *; lia). reflexivity. }
  rewrite (extract_pixels_complete ps _ Hhdr) by (unfold len in *; lia).
  rewrite fmap_take, fmap_drop, Hsplit.
  rewrite drop_app_length' by (rewrite _to_bits_length; reflexivity).
  rewrite take_app_length' by (rewrite _to_bits_length; unfold len; lia).
  rewrite unpackBits_to_bits by assumption. reflexivity.
Qed.

(** ** Opening, creating directories and saving *)

Lemma Image_open_inv w p im :
  Image_open w p = OK im ->
  files w !! p = Some (image_file im)
  /\ 0 <= width im /\ 0 <= height im
  /\ len (data im) = width im * height im
  /\ len (data im) <= 2 * MAX_IMAGE_PIXELS.
Proof.
  unfold Image_open, well_sized. intros Hopen.
  destruct (files w !! p) as [[im' | ] | ];
    [ | discriminate | destruct (bool_decide (p ∈ dirs w)); discriminate ].
  destruct (Z.gtb_spec (Z.max 1 (width im') * Z.max 1 (height im')) (2 * MAX_IMAGE_PIXELS))
    as [ | Hsmall ]; [ discriminate | ].
  destruct (Z.leb_spec 0 (width im')); cbn [andb negb] in Hopen; [ | discriminate ].
  destruct (Z.leb_spec 0 (height im')); cbn [andb negb] in Hopen; [ | discriminate ].
  destruct (Z.eqb_spec (len (data im')) (width im' * height im'));
    cbn [negb] in Hopen; [ | discriminate ].
  injection Hopen as <-. repeat split; try assumption. nia.
Qed.

Lemma Image_open_image w p im :
  files w !! p = Some (image_file im) ->
  0 <= width im -> 0 <= height im ->
  len (data im) = width im * height im ->
  Z.max 1 (width im) * Z.max 1 (height im) <= 2 * MAX_IMAGE_PIXELS ->
  Image_open w p = OK im.
Proof.
  intros Hfile Hw Hh Hdata Hsmall. unfold Image_open, well_sized. rewrite Hfile.
  destruct (Z.gtb_spec (Z.max 1 (width im) * Z.max 1 (height im)) (2 * MAX_IMAGE_PIXELS));
    [ lia | ].
  destruct (Z.leb_spec 0 (width im)); [ | lia ].
  destruct (Z.leb_spec 0 (height im)); [ | lia ].
  destruct (Z.eqb_spec (len (data im)) (width im * height im)); [ reflexivity | lia ].
Qed.

(** What an opened image can hold fits the 32-bit header. *)
Lemma Image_open_header_range w p im (payload : list Z) :
  Image_open w p = OK im ->
  32 + 8 * len payload <= len (channels (data im)) ->
  len payload <= 0xFFFFFFFF.
Proof.
  intros Hopen Hcap.
  destruct (Image_open_inv _ _ _ Hopen) as (_ & _ & _ & _ & Hmax).
  rewrite channels_len in Hcap. unfold MAX_IMAGE_PIXELS in Hmax. lia.
Qed.

(** An image of the size of one that was opened is opened as well. *)
Lemma Image_open_same_size w p im w' q im' :
  Image_open w p = OK im ->
  files w' !! q = Some (image_file im') ->
  width im' = width im -> height im' = height im ->
  length (data im') = length (data im) ->
  Image_open w' q = OK im'.
Proof.
  unfold Image_open, well_sized, len. intros Hopen Hfile Hw Hh Hdata.
  rewrite Hfile, Hw, Hh, Hdata.
  destruct (files w !! p) as [[im0 | ] | ];
    [ | discriminate | destruct (bool_decide (p ∈ dirs w)); discriminate ].
  destruct (Z.max 1 (width im0) * Z.max 1 (height im0) >? 2 * MAX_IMAGE_PIXELS) eqn:Hbomb;
    [ discriminate | ].
  destruct (negb ((0 <=? width im0) && (0 <=? height im0)
                  && (Z.of_nat (length (data im0)) =? width im0 * height im0))) eqn:Hsize;
    [ discriminate | ].
  injection Hopen as <-. rewrite Hbomb, Hsize. reflexivity.
Qed.

Lemma Image_open_not_ValueError w p msg : Image_open w p <> Raise (ValueError msg).
Proof.
  unfold Image_open.
  destruct (files w !! p) as [[im | ] | ];
    [ | discriminate | destruct (bool_decide (p ∈ dirs w)); discriminate ].
  destruct (Z.max 1 (width im) * Z.max 1 (height im) >? 2 * MAX_IMAGE_PIXELS);
    [ discriminate | ].
  destruct (negb (well_sized im)); discriminate.
Qed.

Lemma with_parents_length d n x : x ∈ with_parents d n -> (length x <= length d)%nat.
Proof.
  induction n as [|n IH]; cbn [with_parents].
  - intros ->%elem_of_singleton. rewrite length_take. lia.
  - intros [->%elem_of_singleton | Hin]%elem_of_union; [ | auto ].
    rewrite length_take. lia.
Qed.

Lemma parent_length p : p <> [] -> (length (parent p) < length p)%nat.
Proof.
  intros Hp. unfold parent. rewrite length_take.
  destruct p; [ contradiction | simpl; lia ].
Qed.

(** After the directories above a writable location were made, the
    location is still no directory. *)
Lemma writable_not_dir w output_path :
  writable w output_path ->
  output_path ∉ mkdir_parents (parent output_path) (dirs w).
Proof.
  intros (_ & Hdir & Hne). unfold mkdir_parents.
  intros [Hin | Hin]%elem_of_union; [ contradiction | ].
  apply with_parents_length in Hin. pose proof (parent_length _ Hne). lia.
Qed.

Section FileFormats.
Variable registry : list string -> save_as.

Lemma save_inv im p w r w1 :
  save registry im p w = (r, w1) ->
  dirs w1 = dirs w
  /\ (forall q, q <> p -> files w1 !! q = files w !! q)
  /\ ((exists e, r = Raise e
                 /\ (e = OSError \/ (exists format, e = KeyError format)
                     \/ exists ext, e = ValueError ("unknown file extension: " +:+ ext)))
      \/ (r = OK tt /\ exists save_handler f,
            registry p = known_format save_handler
            /\ save_handler im = saved f
            /\ files w1 = <[p := f]> (files w))).
Proof.
  unfold save. destruct (registry p) as [ext | format | save_handler].
  - intros [= <- <-]. repeat split. left. eexists. split; [ reflexivity | ]. eauto.
  - intros [= <- <-]. repeat split. left. eexists. split; [ reflexivity | ]. eauto.
  - destruct (bool_decide (p ∈ dirs w)).
    + intros [= <- <-]. repeat split. left. eexists. split; [ reflexivity | ]. eauto.
    + destruct (save_handler im) as [f | partial] eqn:Hhandler.
      * intros [= <- <-]. cbn [files dirs]. repeat split.
        -- intros q Hq. apply lookup_insert_ne. congruence.
        -- right. split; [ reflexivity | ]. exists save_handler, f. auto.
      * destruct (files w !! p); intros [= <- <-]; cbn [files dirs]; repeat split.
        -- intros q Hq. apply lookup_insert_ne. congruence.
        -- left. eexists. split; [ reflexivity | ]. eauto.
        -- left. eexists. split; [ reflexivity | ]. eauto.
Qed.

(** The stages of [embed_message]: the outcome is decided by the first
    stage that raises. *)
Lemma embed_message_stages w input_path output_path message :
  match Image_open w input_path with
  | Raise e => embed_message registry w input_path output_path message = (Raise e, w)
  | OK img0 =>
      match embed_pixels img0 message with
      | (Raise e, _) => embed_message registry w input_path output_path message = (Raise e, w)
      | (OK _, h) =>
          if mkdir_blocked (files w) (parent output_path) (length (parent output_path))
          then embed_message registry w input_path output_path message = (Raise OSError, w)
          else embed_message registry w input_path output_path message
               = save registry (img h) output_path
                   {| files := files w;
                      dirs := mkdir_parents (parent output_path) (dirs w) |}
      end
  end.
Proof.
  unfold embed_message, mkdir.
  destruct (Image_open w input_path) as [img0 | e]; [ | reflexivity ].
  destruct (embed_pixels img0 message) as [[[] | e] h]; [ | reflexivity ].
  destruct (mkdir_blocked (files w) (parent output_path) (length (parent output_path)));
    reflexivity.
Qed.

(** Whatever the outcome, [embed_message] touches no regular file but the
    one at [output_path] and removes no directory. *)
Lemma embed_message_frame w input_path output_path message :
  (forall p, p <> output_path ->
     files (embed_message registry w input_path output_path message).2 !! p = files w !! p)
  /\ dirs w ⊆ dirs (embed_message registry w input_path output_path message).2.
Proof.
  pose proof (embed_message_stages w input_path output_path message) as Hst.
  destruct (Image_open w input_path) as [img0 | e]; [ | rewrite Hst; split; auto ].
  destruct (embed_pixels img0 message) as [[[] | e] h]; [ | rewrite Hst; split; auto ].
  destruct (mkdir_blocked (files w) (parent output_path) (length (parent output_path)));
    [ rewrite Hst; split; auto | ].
  rewrite Hst.
  destruct (save registry (img h) output_path
              {| files := files w; dirs := mkdir_parents (parent output_path) (dirs w) |})
    as [r w1] eqn:Hsave.
  destruct (save_inv _ _ _ _ _ Hsave) as (Hdirs & Hfiles & _). cbn [snd files dirs] in Hdirs, Hfiles |- *.
  split; [ exact Hfiles | ]. rewrite Hdirs. unfold mkdir_parents. apply union_subseteq_l.
Qed.

(** An exception of the stages before [mkdir] leaves the file system as it
    was; the two [ValueError]s of the codec are among them. *)
Lemma embed_message_codec_error w input_path output_path message e :
  (embed_message registry w input_path output_path message).1 = Raise e ->
  e = RangeError \/ (exists c n, e = CapacityError c n) ->
  (embed_message registry w input_path output_path message).2 = w.
Proof.
  intros Hraise Hkind.
  pose proof (embed_message_stages w input_path output_path message) as Hst.
  destruct (Image_open w input_path) as [img0 | e0]; [ | rewrite Hst; reflexivity ].
  destruct (embed_pixels img0 message) as [[[] | e0] h]; [ | rewrite Hst; reflexivity ].
  destruct (mkdir_blocked (files w) (parent output_path) (length (parent output_path)));
    [ rewrite Hst; reflexivity | ].
  rewrite Hst in *.
  destruct (save registry (img h) output_path
              {| files := files w; dirs := mkdir_parents (parent output_path) (dirs w) |})
    as [r w1] eqn:Hsave.
  destruct (save_inv _ _ _ _ _ Hsave)
    as (_ & _ & [(e1 & -> & He1) | (-> & _)]); cbn [fst snd] in *;
    [ | discriminate ].
  injection Hraise as <-. exfalso.
  destruct He1 as [-> | [(format & ->) | (ext & ->)]];
    destruct Hkind as [He | (c & n & He)];
    try discriminate He; cbn in He; discriminate He.
Qed.

(** The capacity error comes from the capacity check and from nowhere
    else. *)
Lemma embed_message_CapacityError_inv w input_path output_path message c n :
  (embed_message registry w input_path output_path message).1 = Raise (CapacityError c n) ->
  exists img0 h,
    Image_open w input_path = OK img0
    /\ embed_pixels img0 message = (Raise (CapacityError c n), h).
Proof.
  intros Hraise.
  pose proof (embed_message_stages w input_path output_path message) as Hst.
  pose proof (Image_open_not_ValueError w input_path (too_large_message c n)) as Hopen.
  destruct (Image_open w input_path) as [img0 | e0].
  - exists img0. destruct (embed_pixels img0 message) as [[[] | e0] h].
    + exfalso.
      destruct (mkdir_blocked (files w) (parent output_path) (length (parent output_path)));
        rewrite Hst in Hraise; [ discriminate | ].
      destruct (save registry (img h) output_path
                  {| files := files w; dirs := mkdir_parents (parent output_path) (dirs w) |})
        as [r w1] eqn:Hsave.
      destruct (save_inv _ _ _ _ _ Hsave)
        as (_ & _ & [(e1 & -> & He1) | (-> & _)]); cbn [fst] in Hraise;
        [ | discriminate ].
      injection Hraise as ->.
      destruct He1 as [He | [(format & He) | (ext & He)]];
        try discriminate He; cbn in He; discriminate He.
    + rewrite Hst in Hraise. cbn [fst] in Hraise. exists h.
      split; [ reflexivity | ]. injection Hraise as ->. reflexivity.
  - rewrite Hst in Hraise. cbn [fst] in Hraise. exfalso. apply Hopen.
    unfold CapacityError in Hraise. congruence.
Qed.

(** Success of [embed_message], read backwards and forwards. *)
Lemma embed_message_ok_inv w input_path output_path message w' :
  embed_message registry w input_path output_path message = (OK tt, w') ->
  exists img0 h save_handler f,
    Image_open w input_path = OK img0
    /\ embed_pixels img0 message = (OK tt, h)
    /\ registry output_path = known_format save_handler
    /\ save_handler (img h) = saved f
    /\ files w' = <[output_path := f]> (files w)
    /\ dirs w' = mkdir_parents (parent output_path) (dirs w).
Proof.
  intros Hrun.
  pose proof (embed_message_stages w input_path output_path message) as Hst.
  destruct (Image_open w input_path) as [img0 | e0]; [ | congruence ].
  destruct (embed_pixels img0 message) as [[[] | e0] h] eqn:Hpx; [ | congruence ].
  destruct (mkdir_blocked (files w) (parent output_path) (length (parent output_path)));
    [ congruence | ].
  rewrite Hst in Hrun.
  destruct (save_inv _ _ _ _ _ Hrun)
    as (Hdirs & _ & [(e1 & He1 & _) | (_ & save_handler & f & Hreg & Hsaved & Hfiles)]);
    [ discriminate | ].
  exists img0, h, save_handler, f. cbn [files dirs] in Hdirs, Hfiles.
  repeat split; first [ assumption | reflexivity | idtac ].
Qed.

Lemma embed_message_ok w input_path output_path message img0 h save_handler f :
  Image_open w input_path = OK img0 ->
  embed_pixels img0 message = (OK tt, h) ->
  writable w output_path ->
  registry output_path = known_format save_handler ->
  save_handler (img h) = saved f ->
  embed_message registry w input_path output_path message
  = (OK tt, {| files := <[output_path := f]> (files w);
               dirs := mkdir_parents (parent output_path) (dirs w) |}).
Proof.
  intros Hopen Hpx Hwr Hreg Hsaved.
  pose proof (embed_message_stages w input_path output_path message) as Hst.
  rewrite Hopen, Hpx in Hst. pose proof Hwr as (Hfree & _). rewrite Hfree in Hst.
  rewrite Hst. unfold save. rewrite Hreg. cbn [files dirs].
  rewrite bool_decide_eq_false_2 by (apply writable_not_dir; assumption).
  rewrite Hsaved. reflexivity.
Qed.

End FileFormats.

(** ** Frame effect, range and atomicity of embed *)

Lemma message_bits_eq message payload :
  encode_utf8 message = OK payload -> message_bits message = frame_bits payload.
Proof. intros Henc. unfold message_bits. rewrite Henc. reflexivity. Qed.

Lemma embed_pixels_ok_inv img0 message h :
  embed_pixels img0 message = (OK tt, h) ->
  exists payload,
    encode_utf8 message = OK payload
    /\ pixels h = data img0 /\ data (img h) = new_pixels h
    /\ width (img h) = width img0 /\ height (img h) = height img0
    /\ channels (new_pixels h) = write_lsbs (frame_bits payload) (channels (data img0))
    /\ length (new_pixels h) = length (data img0)
    /\ len payload <= 0xFFFFFFFF /\ 32 + 8 * len payload <= len (channels (data img0)).
Proof.
  intros Hrun. destruct (encode_utf8 message) as [payload | e] eqn:Henc.
  - exists payload. split; [ reflexivity | ].
    destruct (Z.lt_ge_cases 0xFFFFFFFF (len payload)) as [Hlong | Hlen].
    { rewrite (embed_pixels_too_long _ _ _ Henc Hlong) in Hrun. discriminate. }
    destruct (Z.lt_ge_cases (len (channels (data img0))) (32 + 8 * len payload))
      as [Hcap | Hcap].
    { rewrite (embed_pixels_too_large _ _ _ Henc ltac:(lia) Hcap) in Hrun. discriminate. }
    destruct (embed_pixels_fits img0 _ _ Henc ltac:(lia) ltac:(lia))
      as (ps & rest & Heq & Hch & Hlen').
    rewrite Heq in Hrun. injection Hrun as <-. cbn [pixels img data new_pixels width height].
    repeat split; auto; lia.
  - rewrite (embed_pixels_raise_encode _ _ _ Henc) in Hrun. discriminate.
Qed.

(** C4 (frame effect of embed): after a successful embed the output
    channel sequence has the length of the input; every entry below
    [totalBits = 32 + 8 * payloadBytes] is [(input[i] & 0xFE) | bits[i]] and
    keeps the seven upper bits of the input entry; every entry from
    [totalBits] on is the input entry. *)
Theorem embed_frame_effect img0 message h :
  embed_pixels img0 message = (OK tt, h) ->
  Forall is_byte (channels (data img0)) ->
  let input := channels (data img0) in
  let output := channels (data (img h)) in
  let bits := message_bits message in
  let totalBits := 32 + 8 * utf8_len message in
  length output = length input
  /\ len bits = totalBits
  /\ (forall i, Z.of_nat i < totalBits ->
        exists c bit, input !! i = Some c /\ bits !! i = Some bit
                      /\ output !! i = Some (set_lsb c bit)
                      /\ Z.shiftr (set_lsb c bit) 1 = Z.shiftr c 1)
  /\ (forall i, totalBits <= Z.of_nat i -> output !! i = input !! i).
Proof.
  intros Hrun Hrange input output bits totalBits.
  destruct (embed_pixels_ok_inv _ _ _ Hrun)
    as (payload & Henc & _ & Hdata & _ & _ & Hch & _ & Hlen & Hcap).
  subst input output bits totalBits.
  rewrite Hdata, Hch, (message_bits_eq _ _ Henc), (utf8_len_eq _ _ Henc).
  pose proof (frame_bits_len payload) as Hflen.
  repeat split.
  - apply write_lsbs_length.
  - assumption.
  - intros i Hi.
    destruct (lookup_lt_is_Some_2 (channels (data img0)) i) as [c Hc];
      [ unfold len in *; lia | ].
    destruct (lookup_lt_is_Some_2 (frame_bits payload) i) as [bit Hbit];
      [ unfold len in *; lia | ].
    exists c, bit. repeat split; try assumption.
    + apply write_lsbs_lookup_lt; assumption.
    + apply set_lsb_high.
      * eapply Forall_lookup_1; eassumption.
      * eapply Forall_lookup_1; [ | eassumption ]. auto with stego.
  - intros i Hi. apply write_lsbs_lookup_ge. unfold len in *. lia.
Qed.

(** C9 (range invariant): embed maps channel values in [0, 255] to channel
    values in [0, 255]. *)
Theorem embed_range_invariant img0 message h :
  embed_pixels img0 message = (OK tt, h) ->
  Forall is_byte (channels (data img0)) ->
  Forall is_byte (channels (data (img h))).
Proof.
  intros Hrun Hrange.
  destruct (embed_pixels_ok_inv _ _ _ Hrun)
    as (payload & Henc & _ & Hdata & _ & _ & Hch & _).
  rewrite Hdata, Hch. auto with stego.
Qed.

(** C3 as amended (atomicity of embed): when embed fails with the capacity
    error nothing has been produced, on disk or in memory: the file system
    is as it was, so the input file is untouched and no directory was
    made, and in memory [new_pixels] is empty and the image object is the
    opened one.  Whatever the outcome, no file other than the one at
    [output_path] is changed and no directory is removed; the input file
    is therefore left as it was whenever it is not itself named as the
    output. *)
Theorem embed_atomic registry w input_path output_path message :
  (forall c n,
     (embed_message registry w input_path output_path message).1 = Raise (CapacityError c n) ->
     (embed_message registry w input_path output_path message).2 = w)
  /\ (forall img0 e,
        Image_open w input_path = OK img0 ->
        (embed_pixels img0 message).1 = Raise e ->
        (embed_pixels img0 message).2 = initial_heap img0
        /\ embed_message registry w input_path output_path message = (Raise e, w))
  /\ (forall p, p <> output_path ->
        files (embed_message registry w input_path output_path message).2 !! p = files w !! p)
  /\ dirs w ⊆ dirs (embed_message registry w input_path output_path message).2.
Proof.
  split; [ | split; [ | split ] ].
  - intros c n Hraise.
    apply (embed_message_codec_error _ _ _ _ _ _ Hraise). right. eauto.
  - intros img0 e Hopen He. split.
    + destruct (embed_pixels img0 message) as [r h] eqn:Hrun. cbn [fst snd] in *. subst r.
      destruct (encode_utf8 message) as [payload | e'] eqn:Henc.
      * destruct (embed_pixels_cases _ _ _ Henc _ _ Hrun)
          as [(_ & -> & _) | [(_ & -> & _) | (Hok & _)]]; auto. discriminate.
      * rewrite (embed_pixels_raise_encode _ _ _ Henc) in Hrun.
        injection Hrun as _ <-. reflexivity.
    + unfold embed_message. rewrite Hopen.
      destruct (embed_pixels img0 message) as [[[] | e'] h]; cbn [fst] in He;
        [ discriminate | congruence ].
  - intros p Hp. unfold embed_message, mkdir, save.
    destruct (Image_open w input_path) as [img0 | e0]; [ | reflexivity ].
    destruct (embed_pixels img0 message) as [[[] | e0] h]; [ | reflexivity ].
    destruct (mkdir_blocked (files w) (parent output_path) (length (parent output_path)));
      [ reflexivity | ].
    destruct (registry output_path) as [ext | format | save_handler];
      [ reflexivity | reflexivity | ].
    cbn [dirs files].
    destruct (bool_decide (output_path ∈ mkdir_parents (parent output_path) (dirs w)));
      [ reflexivity | ].
    destruct (save_handler (img h)) as [f | partial];
      [ | destruct (files w !! output_path); [ | reflexivity ] ];
      cbn [snd files]; apply lookup_insert_ne; congruence.
  - unfold embed_message, mkdir, save.
    destruct (Image_open w input_path) as [img0 | e0]; [ | reflexivity ].
    destruct (embed_pixels img0 message) as [[[] | e0] h]; [ | reflexivity ].
    destruct (mkdir_blocked (files w) (parent output_path) (length (parent output_path)));
      [ reflexivity | ].
    destruct (registry output_path) as [ext | format | save_handler]; cbn [snd dirs files];
      [ unfold mkdir_parents; apply union_subseteq_l .. | ].
    destruct (bool_decide (output_path ∈ mkdir_parents (parent output_path) (dirs w)));
      [ | destruct (save_handler (img h)) as [f | partial];
          [ | destruct (files w !! output_path) ] ];
      cbn [snd dirs]; unfold mkdir_parents; apply union_subseteq_l.
Qed.

(** C3 as stated fails on success when the caller names the cover as the
    output: [embed_message] then replaces the input file by the stego
    image (12 entries of value 255, 254, 7; the empty text sets the first
    32 least significant bits to 0). *)
Lemma embed_in_place_replaces_cover :
  let cover := {| width := 4; height := 3; data := replicate 12 (255, 254, 7) |} in
  let p := ["cover.png"%string] in
  let w := {| files := {[ p := image_file cover ]}; dirs := {[ [] ]} |} in
  Image_open w p = OK cover
  /\ (embed_message png_bmp_registry w p p []).1 = OK tt
  /\ Image_open (embed_message png_bmp_registry w p p []).2 p <> Image_open w p.
Proof.
  intros cover p w.
  assert (Hopen : Image_open w p = OK cover).
  { apply Image_open_image;
      [ apply lookup_singleton_eq | vm_compute; first [ reflexivity | discriminate ] .. ]. }
  assert (Hrun : exists stego,
             embed_message png_bmp_registry w p p [] = (OK tt, {| files := <[p := image_file stego]> (files w); dirs := mkdir_parents (parent p) (dirs w) |})
             /\ width stego = 4 /\ height stego = 3
             /\ data stego = replicate 10 (254, 254, 6) ++ [(254, 254, 7); (255, 254, 7)]).
  { pose proof (embed_message_stages png_bmp_registry w p p []) as Hst.
    rewrite Hopen in Hst.
    destruct (embed_pixels cover []) as [r h] eqn:Hpx.
    assert (Hh : r = OK tt /\ width (img h) = 4 /\ height (img h) = 3
                 /\ data (img h) = replicate 10 (254, 254, 6) ++ [(254, 254, 7); (255, 254, 7)]).
    { vm_compute in Hpx. injection Hpx as <- <-. repeat split. }
    destruct Hh as (-> & Hw & Hh & Hd).
    exists (img h). split; [ | auto ].
    assert (Hfree : mkdir_blocked (files w) (parent p) (length (parent p)) = false).
    { change (bool_decide (is_Some (files w !! ([] : list string))) = false).
      apply bool_decide_eq_false_2. intros [x Hx]. unfold w in Hx. cbn [files] in Hx.
      rewrite lookup_singleton_ne in Hx; discriminate. }
    rewrite Hfree in Hst. rewrite Hst. unfold save.
    change (png_bmp_registry p) with (known_format (fun im => saved (image_file im))).
    cbn [dirs files]. rewrite bool_decide_eq_false_2; [ reflexivity | ].
    apply (writable_not_dir w p). split; [ exact Hfree | split ].
    - cbn [dirs w]. intros Hin%elem_of_singleton. discriminate.
    - discriminate. }
  destruct Hrun as (stego & Hrun & Hw & Hh & Hd).
  split; [ exact Hopen | ]. rewrite Hrun. cbn [fst snd]. split; [ reflexivity | ].
  rewrite Hopen.
  rewrite (Image_open_image _ p stego).
  - intros [= Heq]. rewrite Heq in Hd. vm_compute in Hd. discriminate Hd.
  - cbn [files]. apply lookup_insert_eq.
  - lia.
  - lia.
  - rewrite Hd, Hw, Hh. reflexivity.
  - rewrite Hw, Hh. vm_compute. discriminate.
Qed.

Lemma embed_frame_effect_witness :
  let cover := {| width := 5; height := 3; data := replicate 15 (255, 254, 7) |} in
  let h := (embed_pixels cover [65]).2 in
  embed_pixels cover [65] = (OK tt, h)
  /\ length (channels (data (img h))) = 45%nat
  /\ (forall i, 40 <= Z.of_nat i -> channels (data (img h)) !! i = channels (data cover) !! i).
Proof.
  intros cover h.
  assert (Hrun : embed_pixels cover [65] = (OK tt, h)) by reflexivity.
  split; [ exact Hrun | ].
  destruct (embed_frame_effect cover [65] h Hrun) as (Hlen & _ & _ & Htail).
  - vm_compute. repeat (apply Forall_cons_2; [ split; discriminate | ]). apply Forall_nil_2.
  - split; [ exact Hlen | exact Htail ].
Defined.

Lemma embed_range_invariant_witness :
  let cover := {| width := 4; height := 3; data := replicate 12 (0, 255, 128) |} in
  let h := (embed_pixels cover []).2 in
  embed_pixels cover [] = (OK tt, h) /\ Forall is_byte (channels (data (img h))).
Proof.
  intros cover h.
  assert (Hrun : embed_pixels cover [] = (OK tt, h)) by reflexivity.
  split; [ exact Hrun | ].
  apply (embed_range_invariant cover [] h Hrun).
  vm_compute. repeat (apply Forall_cons_2; [ split; discriminate | ]). apply Forall_nil_2.
Defined.

(** ** Round trip *)

(** *** Texts of ASCII letters, of any length *)

Lemma encode_utf8_ascii n : encode_utf8 (replicate n 97) = OK (replicate n 97).
Proof.
  induction n as [|n IH]; [ reflexivity | ].
  cbn [replicate encode_utf8]. rewrite IH. reflexivity.
Qed.

Lemma scalar_ascii n : Forall scalar (replicate n 97).
Proof. apply Forall_replicate. unfold scalar. lia. Qed.

Lemma utf8_len_ascii n : utf8_len (replicate n 97) = Z.of_nat n.
Proof. unfold utf8_len, len. rewrite encode_utf8_ascii, length_replicate. reflexivity. Qed.

Lemma channels_repeat_len (px : pixel) n : len (channels (replicate n px)) = 3 * Z.of_nat n.
Proof. rewrite channels_len. unfold len. rewrite length_replicate. lia. Qed.

(** A pixel list that carries the frame of [payload] is extracted to the
    decoding of [payload]. *)
Lemma extract_embedded img0 payload ps :
  Forall is_byte payload ->
  len payload <= 0xFFFFFFFF ->
  32 + 8 * len payload <= len (channels (data img0)) ->
  channels ps = write_lsbs (frame_bits payload) (channels (data img0)) ->
  extract_pixels ps = OK (decode_utf8_replace payload).
Proof.
  intros Hbytes Hlen Hcap Hch.
  apply (extract_pixels_frame ps payload
           (lsb <$> drop (length (frame_bits payload)) (channels (data img0))));
    try assumption.
  rewrite Hch. apply lsb_write_lsbs; [ auto with stego | ].
  pose proof (frame_bits_len payload). unfold len in *. lia.
Qed.

(** C1 (round trip): a text of Unicode scalar values embedded in the
    channel sequence of an image the tool has opened, of at least
    32 + 8 * len(utf8(msg)) entries, is extracted unchanged.  No bound on
    the text is needed: an image that [Image.open] accepts has at most
    2 * MAX_IMAGE_PIXELS pixels, so a text that fits it also fits the
    32-bit length header. *)
Theorem embed_extract_round_trip w input_path img0 message :
  Image_open w input_path = OK img0 ->
  Forall scalar message ->
  32 + 8 * utf8_len message <= len (channels (data img0)) ->
  exists h, embed_pixels img0 message = (OK tt, h)
            /\ extract_pixels (data (img h)) = OK message.
Proof.
  intros Hopen Hscalar Hcap.
  destruct (encode_utf8_scalar _ Hscalar) as (payload & Henc & Hbytes & Hdec).
  rewrite (utf8_len_eq _ _ Henc) in *.
  assert (Hlen : len payload <= 0xFFFFFFFF).
  { destruct (Image_open_inv _ _ _ Hopen) as (_ & _ & _ & _ & Hmax).
    rewrite channels_len in Hcap. unfold MAX_IMAGE_PIXELS in Hmax. lia. }
  destruct (embed_pixels_fits img0 _ _ Henc Hlen Hcap) as (ps & rest & Hrun & Hch & _).
  exists {| img := {| width := width img0; height := height img0; data := ps |};
            pixels := data img0; flat_bits := rest; new_pixels := ps |}.
  split; [ exact Hrun | ]. cbn [img data].
  rewrite <- Hdec. apply (extract_embedded img0); assumption.
Qed.

(** Scenario B: "secret" in a 100 x 100 image. *)
Lemma embed_extract_round_trip_witness :
  let secret := [115; 101; 99; 114; 101; 116] in
  let cover := {| width := 100; height := 100;
                  data := replicate (Z.to_nat 10000) (12, 200, 255) |} in
  let w := {| files := {[ ["cover.png"%string] := image_file cover ]}; dirs := {[ [] ]} |} in
  Image_open w ["cover.png"%string] = OK cover
  /\ utf8_len secret = 6 /\ len (channels (data cover)) = 30000
  /\ exists h, embed_pixels cover secret = (OK tt, h)
               /\ extract_pixels (data (img h)) = OK secret.
Proof.
  intros secret cover w.
  assert (Hopen : Image_open w ["cover.png"%string] = OK cover).
  { apply Image_open_image;
      [ apply lookup_singleton_eq | vm_compute; first [ reflexivity | discriminate ] .. ]. }
  split; [ exact Hopen | ]. split; [ reflexivity | ].
  split; [ apply channels_repeat_len | ].
  apply (embed_extract_round_trip w ["cover.png"%string] cover secret).
  - exact Hopen.
  - subst secret. unfold scalar.
    repeat (apply Forall_cons_2; [ lia | ]). apply Forall_nil_2.
  - change (utf8_len secret) with 6. subst cover. cbn [data].
    rewrite channels_repeat_len. lia.
Defined.

(** ** Capacity failure and the header precondition *)

(** C2 as amended (capacity failure): for a text of Unicode scalar values
    whose encoding has at most 2^32 - 1 bytes, embed fails with
    CapacityError exactly when the frame has more bits than the channel
    sequence has entries; the error reports the capacity as entries / 8
    bytes and the need as bits / 8 bytes rounded up.  A 2 x 2 image and the
    empty text give capacity 1 and needed 4. *)
Theorem embed_capacity_failure img0 message :
  Forall scalar message ->
  utf8_len message <= 0xFFFFFFFF ->
  let nbits := 32 + 8 * utf8_len message in
  let nchannels := len (channels (data img0)) in
  ((exists c n h, embed_pixels img0 message = (Raise (CapacityError c n), h))
   <-> nchannels < nbits)
  /\ (nchannels < nbits ->
      (embed_pixels img0 message).1 = Raise (CapacityError (nchannels / 8) ((nbits + 7) / 8)))
  /\ (length (data img0) = 4%nat -> message = [] ->
      (embed_pixels img0 message).1 = Raise (CapacityError 1 4)
      /\ exn_message (CapacityError 1 4)
         = Some "Message too large for image. Capacity=1 bytes, needed=4 bytes."%string).
Proof.
  intros Hscalar Hlen nbits nchannels.
  destruct (encode_utf8_scalar _ Hscalar) as (payload & Henc & _ & _).
  subst nbits nchannels. rewrite (utf8_len_eq _ _ Henc) in *.
  assert (Hraise : len (channels (data img0)) < 32 + 8 * len payload ->
            embed_pixels img0 message
            = (Raise (CapacityError (len (channels (data img0)) / 8)
                                    ((32 + 8 * len payload + 7) / 8)), initial_heap img0)).
  { intros Hcap. rewrite (embed_pixels_too_large _ _ _ Henc Hlen Hcap).
    replace ((32 + 8 * len payload + 7) / 8) with (4 + len payload) by div_mod_lia.
    reflexivity. }
  split; [ split | split ].
  - intros (c & n & h & Hrun).
    destruct (Z.lt_ge_cases (len (channels (data img0))) (32 + 8 * len payload))
      as [Hcap | Hcap]; [ assumption | ].
    destruct (embed_pixels_fits img0 _ _ Henc Hlen Hcap) as (ps & rest & Heq & _).
    rewrite Heq in Hrun. discriminate.
  - intros Hcap. do 3 eexists. apply Hraise. assumption.
  - intros Hcap. rewrite Hraise by assumption. reflexivity.
  - intros H4 ->. injection Henc as <-. split; [ | reflexivity ].
    rewrite Hraise; rewrite channels_len; unfold len; rewrite H4; [ reflexivity | ].
    cbn. lia.
Qed.

(** Scenario A: the empty text in a 2 x 2 image. *)
Lemma embed_capacity_failure_witness :
  let cover := {| width := 2; height := 2; data := replicate 4 (255, 0, 128) |} in
  (exists c n h, embed_pixels cover [] = (Raise (CapacityError c n), h))
  /\ (embed_pixels cover []).1 = Raise (CapacityError 1 4).
Proof.
  intros cover.
  destruct (embed_capacity_failure cover []) as (Hiff & _ & Hscenario).
  - apply Forall_nil_2.
  - vm_compute. discriminate.
  - split.
    + apply Hiff. vm_compute. reflexivity.
    + apply Hscenario; reflexivity.
Defined.

(** C2 as stated fails for a text of 2^32 bytes: the frame exceeds the 12
    entries of a 2 x 2 image, yet embed raises the length error of
    [_pack_length], before the capacity check is reached. *)
Lemma capacity_check_after_length_check :
  let message := replicate (Z.to_nat 4294967296) 97 in
  let cover := {| width := 2; height := 2; data := replicate 4 (0, 0, 0) |} in
  Forall scalar message
  /\ len (channels (data cover)) < 32 + 8 * utf8_len message
  /\ ~ exists c n h, embed_pixels cover message = (Raise (CapacityError c n), h).
Proof.
  intros message cover. split; [ apply scalar_ascii | ]. split.
  - subst message. rewrite utf8_len_ascii. change (len (channels (data cover))) with 12. lia.
  - intros (c & n & h & Hrun).
    rewrite (embed_pixels_too_long cover message message) in Hrun.
    + apply (RangeError_not_CapacityError c n). congruence.
    + apply encode_utf8_ascii.
    + subst message. unfold len. rewrite length_replicate. lia.
Qed.

(** C5 as amended (header precondition): on a channel sequence of fewer
    than 32 entries extract fails with the FormatError of the length
    decoder, which is handed fewer than four bytes; it returns no text. *)
Theorem extract_header_precondition ps :
  len (channels ps) < 32 ->
  extract_pixels ps = Raise FormatError
  /\ header_length (channels ps) = Raise FormatError
  /\ exists length_bytes,
       _bits_to_bytes (lsb <$> channels ps) = OK length_bytes
       /\ len length_bytes < 4
       /\ _unpack_length length_bytes = Raise FormatError.
Proof.
  intros Hlen. split; [ apply extract_pixels_short; assumption | ].
  split; [ apply header_length_short; assumption | ].
  exists (unpackBits (lsb <$> channels ps)).
  assert (Hshort : (length (unpackBits (lsb <$> channels ps)) < 4)%nat).
  { rewrite unpackBits_length, length_fmap. unfold len in Hlen.
    apply Nat.Div0.div_lt_upper_bound. lia. }
  split; [ apply _bits_to_bytes_unpackBits; auto with stego | ].
  split; [ unfold len; lia | apply _unpack_length_short; assumption ].
Qed.

Lemma extract_header_precondition_witness :
  let ps := replicate 10 (255, 255, 255) in
  len (channels ps) = 30 /\ extract_pixels ps = Raise FormatError.
Proof.
  intros ps. split; [ reflexivity | ].
  apply (extract_header_precondition ps). vm_compute. reflexivity.
Defined.

(** C5 as stated fails on a 2 x 2 image: the error is not
    TruncatedDataError. *)
Lemma extract_short_is_not_truncated :
  let ps := replicate 4 (0, 0, 0) in
  len (channels ps) < 32 /\ extract_pixels ps <> Raise TruncatedDataError.
Proof.
  intros ps. split; [ vm_compute; reflexivity | ].
  rewrite extract_pixels_short by (vm_compute; reflexivity).
  intros Heq. apply FormatError_not_TruncatedDataError. congruence.
Qed.

(** ** Completeness check and noninterference *)

(** C6 as amended (completeness check): on a channel sequence of at least
    32 entries the header decodes to a length L; when fewer than 8 * L
    entries follow the header extract fails with TruncatedDataError, whose
    text is fixed and carries no bit counts, and returns no text; otherwise
    it returns the text decoded from the L bytes packed from exactly the
    next 8 * L least-significant bits. *)
Theorem extract_completeness_check ps :
  32 <= len (channels ps) ->
  exists L,
    header_length (channels ps) = OK L /\ 0 <= L
    /\ (len (channels ps) - 32 < L * 8 ->
        extract_pixels ps = Raise TruncatedDataError
        /\ exn_message TruncatedDataError
           = Some "Image does not contain a complete message."%string)
    /\ (L * 8 <= len (channels ps) - 32 ->
        exists message_bits payload,
          message_bits = lsb <$> take (Z.to_nat (L * 8)) (drop 32 (channels ps))
          /\ len message_bits = L * 8
          /\ _bits_to_bytes message_bits = OK payload
          /\ len payload = L
          /\ extract_pixels ps = OK (decode_utf8_replace payload)).
Proof.
  intros Hlen.
  destruct (header_length_ok _ Hlen) as [Hhdr HL].
  eexists. split; [ exact Hhdr | ]. split; [ lia | ]. split.
  - intros Htrunc. split; [ | reflexivity ].
    eapply extract_pixels_truncated; eassumption.
  - intros Hfull. do 2 eexists. split; [ reflexivity | ].
    match goal with |- context [ take (Z.to_nat ?n) (drop 32 ?cs) ] =>
      assert (Hbits : length (lsb <$> take (Z.to_nat n) (drop 32 cs)) = Z.to_nat n)
        by (rewrite length_fmap, length_take, length_drop; unfold len in *; lia)
    end.
    split; [ unfold len; rewrite Hbits; lia | ].
    split; [ apply _bits_to_bytes_unpackBits; auto with stego | ].
    split.
    + unfold len. rewrite unpackBits_length, Hbits.
      rewrite Z.mul_comm, Z2Nat.inj_mul by lia. change (Z.to_nat 8) with 8%nat.
      rewrite Nat.mul_comm, Nat.div_mul by lia. lia.
    + eapply extract_pixels_complete; eassumption.
Qed.

Lemma extract_completeness_check_witness :
  let ps := replicate 10 (0, 0, 0) ++ [(0, 1, 0); (1, 0, 1); (1, 0, 1); (0, 1, 1); (2, 3, 4)] in
  len (channels ps) = 45
  /\ exists L, header_length (channels ps) = OK L /\ 0 <= L.
Proof.
  intros ps. split; [ reflexivity | ].
  destruct (extract_completeness_check ps) as (L & Hhdr & HL & _).
  - vm_compute. discriminate.
  - exists L. split; assumption.
Defined.

(** C6 as stated fails in its reporting clause: two truncated inputs with
    different bits available and different bits required raise the very
    same exception, so the exception is no function of the two counts from
    which they could be read. *)
Lemma extract_truncated_reports_no_counts :
  let ps1 := replicate 10 (0, 0, 0) ++ [(0, 1, 0)] in
  let ps2 := replicate 10 (0, 0, 0) ++ [(1, 0, 0); (0, 0, 0)] in
  (bits_available (channels ps1), bits_required (channels ps1)) = (1, OK 8)
  /\ (bits_available (channels ps2), bits_required (channels ps2)) = (4, OK 16)
  /\ extract_pixels ps1 = Raise TruncatedDataError
  /\ extract_pixels ps2 = Raise TruncatedDataError
  /\ exn_message TruncatedDataError
     = Some "Image does not contain a complete message."%string
  /\ ~ (exists report : Z -> Z -> exn,
          (forall a r a' r', report a r = report a' r' -> a = a' /\ r = r')
          /\ forall ps L,
               header_length (channels ps) = OK L ->
               bits_available (channels ps) < L * 8 ->
               extract_pixels ps = Raise (report (bits_available (channels ps)) (L * 8))).
Proof.
  intros ps1 ps2.
  assert (H1 : extract_pixels ps1 = Raise TruncatedDataError) by reflexivity.
  assert (H2 : extract_pixels ps2 = Raise TruncatedDataError) by reflexivity.
  repeat (split; [ reflexivity | ]).
  intros (report & Hinj & Hreport).
  pose proof (Hreport ps1 1 eq_refl ltac:(vm_compute; reflexivity)) as E1.
  pose proof (Hreport ps2 2 eq_refl ltac:(vm_compute; reflexivity)) as E2.
  change (bits_available (channels ps1)) with 1 in E1.
  change (bits_available (channels ps2)) with 4 in E2.
  rewrite H1 in E1. rewrite H2 in E2.
  assert (E : report 1 (1 * 8) = report 4 (2 * 8)) by congruence.
  destruct (Hinj _ _ _ _ E) as [Habs _]. discriminate Habs.
Qed.

(** C10 (tail noninterference of extract): two channel sequences of at
    least 32 + 8 * L entries that agree on the least-significant bits of
    their first 32 + 8 * L entries, L being the length in the header, are
    extracted to the same text. *)
Theorem extract_tail_noninterference ps1 ps2 L :
  header_length (channels ps1) = OK L ->
  32 + 8 * L <= len (channels ps1) ->
  32 + 8 * L <= len (channels ps2) ->
  lsb <$> take (Z.to_nat (32 + 8 * L)) (channels ps1)
  = lsb <$> take (Z.to_nat (32 + 8 * L)) (channels ps2) ->
  exists message, extract_pixels ps1 = OK message /\ extract_pixels ps2 = OK message.
Proof.
  intros Hhdr1 Hlen1 Hlen2 Hagree.
  destruct (header_length_inv _ _ Hhdr1) as (H32 & HL & HLeq).
  assert (Hprefix : forall n, (n <= Z.to_nat (32 + 8 * L))%nat ->
            lsb <$> take n (channels ps1) = lsb <$> take n (channels ps2)).
  { intros n Hn.
    rewrite <- (Nat.min_l n (Z.to_nat (32 + 8 * L))) by assumption.
    rewrite <- !take_take.
    assert (E : forall l : list Z, lsb <$> take n l = take n (lsb <$> l))
      by (intros l; apply fmap_take).
    rewrite (E (take _ (channels ps1))), (E (take _ (channels ps2))), Hagree.
    reflexivity. }
  assert (Hhdr2 : header_length (channels ps2) = OK L).
  { destruct (header_length_ok (channels ps2)) as [-> _]; [ lia | ].
    rewrite <- (Hprefix 32%nat) by lia. rewrite <- HLeq. reflexivity. }
  eexists. split.
  - apply (extract_pixels_complete ps1 L Hhdr1). lia.
  - rewrite (extract_pixels_complete ps2 L Hhdr2) by lia.
    do 3 f_equal.
    rewrite !take_drop_commute, !fmap_drop.
    rewrite !(Hprefix (32 + Z.to_nat (L * 8))%nat) by lia. reflexivity.
Qed.

Lemma extract_tail_noninterference_witness :
  let header := replicate 9 (0, 0, 0) ++ [(2, 4, 6); (8, 11, 0)] in
  let ps1 := header ++ [(1, 0, 0); (0, 0, 0); (1, 9, 9); (9, 9, 9)] in
  let ps2 := header ++ [(3, 2, 4); (6, 8, 20); (5, 7, 0)] in
  header_length (channels ps1) = OK 1
  /\ exists message, extract_pixels ps1 = OK message /\ extract_pixels ps2 = OK message.
Proof.
  intros header ps1 ps2. split; [ reflexivity | ].
  apply (extract_tail_noninterference ps1 ps2 1).
  - reflexivity.
  - vm_compute. discriminate.
  - vm_compute. discriminate.
  - reflexivity.
Defined.

(** ** Truncation policy and the capacity report *)

Lemma unpackBits_lookup bits : forall i,
  (i < length bits / 8)%nat ->
  exists b7 b6 b5 b4 b3 b2 b1 b0,
    take 8 (drop (8 * i) bits) = [b7; b6; b5; b4; b3; b2; b1; b0]
    /\ unpackBits bits !! i
       = Some (128 * b7 + 64 * b6 + 32 * b5 + 16 * b4 + 8 * b3 + 4 * b2 + 2 * b1 + b0).
Proof.
  induction bits as [bits Hlen | b7 b6 b5 b4 b3 b2 b1 b0 rest IH] using list_ind8;
    intros i Hi.
  - rewrite Nat.div_small in Hi by assumption. lia.
  - destruct i as [|i].
    + exists b7, b6, b5, b4, b3, b2, b1, b0. split; reflexivity.
    + assert (Hi' : (i < length rest / 8)%nat).
      { cbn [length] in Hi.
        change (S (S (S (S (S (S (S (S (length rest))))))))) with (8 + length rest)%nat in Hi.
        replace (8 + length rest)%nat with (length rest + 1 * 8)%nat in Hi by lia.
        rewrite Nat.div_add in Hi by lia. lia. }
      destruct (IH i Hi') as (c7 & c6 & c5 & c4 & c3 & c2 & c1 & c0 & Htake & Hlook).
      exists c7, c6, c5, c4, c3, c2, c1, c0. split; [ | exact Hlook ].
      replace (8 * S i)%nat with (8 + 8 * i)%nat by lia. exact Htake.
Qed.

(** C7 (truncation policy of unpackBits): on a sequence of bits
    [_bits_to_bytes] never fails; it returns the bytes of the groups of
    eight, most significant bit first: floor(len(bits) / 8) bytes, byte [i]
    made of bits [8i .. 8i+7]; the bits after the last full group do not
    count. *)
Theorem unpackBits_truncation_policy bits :
  Forall is_bit bits ->
  _bits_to_bytes bits = OK (unpackBits bits)
  /\ length (unpackBits bits) = (length bits / 8)%nat
  /\ (forall i, (i < length bits / 8)%nat ->
        exists b7 b6 b5 b4 b3 b2 b1 b0,
          take 8 (drop (8 * i) bits) = [b7; b6; b5; b4; b3; b2; b1; b0]
          /\ unpackBits bits !! i
             = Some (128 * b7 + 64 * b6 + 32 * b5 + 16 * b4 + 8 * b3 + 4 * b2 + 2 * b1 + b0))
  /\ _bits_to_bytes (take (8 * (length bits / 8)) bits) = _bits_to_bytes bits.
Proof.
  intros Hbits. split; [ apply _bits_to_bytes_unpackBits; assumption | ].
  split; [ apply unpackBits_length | ].
  split; [ apply unpackBits_lookup | ].
  rewrite !_bits_to_bytes_unpackBits; [ | assumption | apply Forall_take; assumption ].
  rewrite <- unpackBits_take. reflexivity.
Qed.

Lemma unpackBits_truncation_policy_witness :
  _bits_to_bytes [0; 1; 0; 0; 0; 0; 0; 1; 1; 1; 1] = OK [65]
  /\ _bits_to_bytes [0; 1; 0; 0; 0; 0; 0; 1] = OK [65].
Proof.
  assert (Hbits : Forall is_bit [0; 1; 0; 0; 0; 0; 0; 1; 1; 1; 1]).
  { unfold is_bit. repeat (apply Forall_cons_2; [ lia | ]). apply Forall_nil_2. }
  destruct (unpackBits_truncation_policy _ Hbits) as (Hrun & _ & _ & Htake).
  split; [ exact Hrun | exact (eq_trans Htake Hrun) ].
Defined.

(** C8 (capacity report): for an image of the given width and height and a
    message of the given encoded length, the report of
    [compute_bpp(image_path, message)] has the stated fields, [used_bpp]
    being the float that Python's [/] gives for total_bits and pixels
    ([0.0] for an image without pixels); the report is a function of
    width, height and encoded length alone. *)
Theorem compute_bpp_report (float : Type) (float_zero : float) (truediv : Z -> Z -> float)
    w image_path message img0 payload :
  Image_open w image_path = OK img0 ->
  encode_utf8 message = OK payload ->
  exists r,
    stego_bpp.compute_bpp_default float float_zero truediv w image_path message = OK r
    /\ stego_bpp.width r = width img0
    /\ stego_bpp.height r = height img0
    /\ stego_bpp.pixels r = width img0 * height img0
    /\ stego_bpp.header_bits r = 32
    /\ stego_bpp.payload_bits r = len payload * 8
    /\ stego_bpp.total_bits r = stego_bpp.header_bits r + stego_bpp.payload_bits r
    /\ stego_bpp.capacity_bits r = width img0 * height img0 * 3
    /\ stego_bpp.capacity_bytes r = stego_bpp.capacity_bits r / 8
    /\ (stego_bpp.pixels r = 0 -> stego_bpp.used_bpp r = float_zero)
    /\ (stego_bpp.pixels r <> 0 ->
        stego_bpp.used_bpp r = truediv (stego_bpp.total_bits r) (stego_bpp.pixels r))
    /\ (stego_bpp.fits r = true <-> stego_bpp.total_bits r <= stego_bpp.capacity_bits r)
    /\ (forall w' image_path' message' img1 payload',
          Image_open w' image_path' = OK img1 ->
          encode_utf8 message' = OK payload' ->
          width img1 = width img0 -> height img1 = height img0 ->
          len payload' = len payload ->
          stego_bpp.compute_bpp_default float float_zero truediv w' image_path' message'
          = OK r).
Proof.
  intros Hopen Henc.
  unfold stego_bpp.compute_bpp_default, stego_bpp.compute_bpp.
  rewrite Hopen, Henc. cbn [bind]. eexists. split; [ reflexivity | ].
  cbn [stego_bpp.width stego_bpp.height stego_bpp.pixels stego_bpp.header_bits
       stego_bpp.payload_bits stego_bpp.total_bits stego_bpp.capacity_bits
       stego_bpp.capacity_bytes stego_bpp.used_bpp stego_bpp.fits].
  repeat match goal with |- _ /\ _ => split end; try reflexivity.
  - lia.
  - intros Hzero. rewrite Hzero. reflexivity.
  - intros Hpixels.
    destruct (Z.eqb_spec (width img0 * height img0) 0); [ contradiction | reflexivity ].
  - apply Z.leb_le.
  - intros w' image_path' message' img1 payload' Hopen' Henc' Hw Hh Hl.
    rewrite Hopen', Henc'. cbn [bind]. rewrite Hw, Hh, Hl. reflexivity.
Qed.

(** Scenario B again: 100 x 100 pixels and the six bytes of "secret", with
    the floats of IEEE 754 binary64; 80 / 10000 is the double nearest to
    0.008. *)
Lemma compute_bpp_report_witness :
  let cover := {| width := 100; height := 100;
                  data := replicate (Z.to_nat 10000) (12, 200, 255) |} in
  let w := {| files := {[ ["cover.png"%string] := image_file cover ]}; dirs := {[ [] ]} |} in
  exists r,
    stego_bpp.compute_bpp_default spec_float (S754_zero false) double_div
      w ["cover.png"%string] [115; 101; 99; 114; 101; 116] = OK r
    /\ stego_bpp.total_bits r = 80 /\ stego_bpp.capacity_bits r = 30000
    /\ stego_bpp.capacity_bytes r = 3750 /\ stego_bpp.fits r = true
    /\ stego_bpp.used_bpp r = S754_finite false 4611686018427388 (-59).
Proof.
  intros cover w.
  destruct (compute_bpp_report spec_float (S754_zero false) double_div
              w ["cover.png"%string] [115; 101; 99; 114; 101; 116] cover
              [115; 101; 99; 114; 101; 116])
    as (r & Hrun & _ & _ & Hpx & Hhdr & Hpay & Htot & Hcap & Hbytes & _ & Hbpp & Hfits & _).
  - apply Image_open_image;
      [ apply lookup_singleton_eq | vm_compute; first [ reflexivity | discriminate ] .. ].
  - reflexivity.
  - exists r. split; [ exact Hrun | ].
    assert (Htotal : stego_bpp.total_bits r = 80) by (rewrite Htot, Hhdr, Hpay; reflexivity).
    assert (Hcapacity : stego_bpp.capacity_bits r = 30000) by (rewrite Hcap; reflexivity).
    assert (Hpixels : stego_bpp.pixels r = 10000) by (rewrite Hpx; reflexivity).
    repeat split; try assumption.
    + rewrite Hbytes, Hcapacity. reflexivity.
    + apply Hfits. rewrite Htotal, Hcapacity. lia.
    + rewrite Hbpp, Htotal, Hpixels; [ vm_compute; reflexivity | lia ].
Defined.

(** ** Further properties: the bit codec and the length header *)

(** X1 ([_to_bits], layout): the generator yields eight bits per item, each
    0 or 1, and bit [8 * i + j] of the output is bit [7 - j] of item [i]:
    most significant bit first.  Items need not be bytes: the bits above
    the eighth are not produced. *)
Theorem to_bits_layout data :
  len (_to_bits data) = 8 * len data
  /\ Forall is_bit (_to_bits data)
  /\ forall i j byte,
       data !! i = Some byte -> (j < 8)%nat ->
       _to_bits data !! (8 * i + j)%nat
       = Some (Z.land (Z.shiftr byte (7 - Z.of_nat j)) 1).
Proof.
  split; [ apply _to_bits_len | ]. split; [ apply _to_bits_is_bit | ].
  induction data as [|byte0 data IH]; intros i j byte Hi Hj; [ discriminate | ].
  rewrite _to_bits_cons. destruct i as [|i].
  - injection Hi as ->. rewrite Nat.mul_0_r, Nat.add_0_l.
    do 8 (destruct j as [|j]; [ reflexivity | ]). lia.
  - replace (8 * S i + j)%nat with (8 + (8 * i + j))%nat by lia.
    exact (IH i j byte Hi Hj).
Qed.

(** X2 ([_to_bits] then [_bits_to_bytes]): packing the bits of a byte
    string gives the byte string back. *)
Theorem bits_of_bytes_round_trip data :
  Forall is_byte data -> _bits_to_bytes (_to_bits data) = OK data.
Proof.
  intros Hdata.
  rewrite _bits_to_bytes_unpackBits by auto with stego.
  rewrite unpackBits_to_bits by assumption. reflexivity.
Qed.

Lemma bits_of_bytes_round_trip_witness :
  _bits_to_bytes (_to_bits [0; 255; 65; 128]) = OK [0; 255; 65; 128].
Proof.
  apply bits_of_bytes_round_trip. unfold is_byte.
  repeat (apply Forall_cons_2; [ lia | ]). apply Forall_nil_2.
Defined.

Lemma to_bits_unpackBits bits :
  Forall is_bit bits -> _to_bits (unpackBits bits) = take (8 * (length bits / 8)) bits.
Proof.
  induction bits as [bits Hlen | b7 b6 b5 b4 b3 b2 b1 b0 rest IH] using list_ind8;
    intros Hbits.
  - rewrite unpackBits_short, Nat.div_small by assumption. reflexivity.
  - repeat match goal with H : Forall _ (_ :: _) |- _ => apply Forall_cons in H as [? H] end.
    cbn [unpackBits]. rewrite _to_bits_cons, (IH Hbits).
    replace (length (b7 :: b6 :: b5 :: b4 :: b3 :: b2 :: b1 :: b0 :: rest))
      with (length rest + 1 * 8)%nat by (cbn [length]; lia).
    rewrite Nat.div_add by lia.
    replace (8 * (length rest / 8 + 1))%nat
      with (S (S (S (S (S (S (S (S (8 * (length rest / 8))))))))))%nat by lia.
    cbn [take app].
    repeat match goal with H : is_bit _ |- _ => destruct H as [-> | ->] end;
      reflexivity.
Qed.

(** X3 ([_bits_to_bytes] then [_to_bits]): unpacking what was packed gives
    back the bits of the full groups of eight, in order; only the bits of
    an incomplete last group are lost. *)
Theorem bytes_of_bits_round_trip bits packed :
  Forall is_bit bits ->
  _bits_to_bytes bits = OK packed ->
  _to_bits packed = take (8 * (length bits / 8)) bits
  /\ ((length bits mod 8 = 0)%nat -> _to_bits packed = bits).
Proof.
  intros Hbits Hpack.
  rewrite _bits_to_bytes_unpackBits in Hpack by assumption. injection Hpack as <-.
  split; [ apply to_bits_unpackBits; assumption | ].
  intros Hmod. rewrite to_bits_unpackBits by assumption.
  apply take_ge. pose proof (Nat.div_mod_eq (length bits) 8). lia.
Qed.

Lemma bytes_of_bits_round_trip_witness :
  _to_bits [165] = take 8 [1; 0; 1; 0; 0; 1; 0; 1; 1; 1].
Proof.
  apply (bytes_of_bits_round_trip [1; 0; 1; 0; 0; 1; 0; 1; 1; 1] [165]).
  - unfold is_bit. repeat (apply Forall_cons_2; [ lia | ]). apply Forall_nil_2.
  - reflexivity.
Defined.

(** X4 ([_pack_length]): the header is produced exactly for lengths in
    [0, 2^32 - 1]; it has four bytes, most significant first, whose
    positional value is the length; every other length raises the
    ValueError "Message length must fit in 32 bits". *)
Theorem pack_length_big_endian n :
  (0 <= n <= 0xFFFFFFFF ->
   exists b3 b2 b1 b0,
     _pack_length n = OK [b3; b2; b1; b0]
     /\ is_byte b3 /\ is_byte b2 /\ is_byte b1 /\ is_byte b0
     /\ n = b3 * 16777216 + b2 * 65536 + b1 * 256 + b0)
  /\ (n < 0 \/ 0xFFFFFFFF < n -> _pack_length n = Raise RangeError).
Proof.
  split.
  - intros Hn. rewrite _pack_length_ok by assumption.
    pose proof (to_bytes4_big_is_byte n) as Hb.
    rewrite to_bytes4_big_arith in *.
    apply Forall_cons in Hb as [H3 Hb]. apply Forall_cons in Hb as [H2 Hb].
    apply Forall_cons in Hb as [H1 Hb]. apply Forall_cons in Hb as [H0 _].
    do 4 eexists. split; [ reflexivity | ].
    split; [ exact H3 | ]. split; [ exact H2 | ]. split; [ exact H1 | ].
    split; [ exact H0 | ]. div_mod_lia.
  - intros Hn. unfold _pack_length.
    destruct (Z.ltb_spec n 0); [ reflexivity | ].
    destruct (Z.gtb_spec n 0xFFFFFFFF); [ reflexivity | lia ].
Qed.

(** X5 (header codec, pack then unpack): every length of at most 2^32 - 1
    is packed into a header that unpacks to the same length. *)
Theorem length_header_round_trip n :
  0 <= n <= 0xFFFFFFFF ->
  exists header, _pack_length n = OK header /\ _unpack_length header = OK n.
Proof.
  intros Hn. exists (to_bytes4_big n).
  split; [ apply _pack_length_ok; assumption | ].
  apply _unpack_pack_length. apply _pack_length_ok. assumption.
Qed.

Lemma length_header_round_trip_witness :
  exists header, _pack_length 4294967295 = OK header
                 /\ _unpack_length header = OK 4294967295.
Proof. apply length_header_round_trip. lia. Defined.

(** X6 (header codec, unpack then pack): [_unpack_length] accepts exactly
    the byte strings of length four; the length it returns lies in
    [0, 2^32 - 1] and packs to the same four bytes. *)
Theorem length_header_unpack_pack bs :
  Forall is_byte bs ->
  (length bs = 4%nat ->
   exists n, _unpack_length bs = OK n /\ 0 <= n <= 0xFFFFFFFF /\ _pack_length n = OK bs)
  /\ (length bs <> 4%nat -> _unpack_length bs = Raise FormatError).
Proof.
  intros Hbs. split.
  - intros Hlen. exists (from_bytes_big bs).
    split; [ apply _unpack_length_4; assumption | ].
    pose proof (from_bytes_big_range bs Hlen Hbs) as Hrange.
    split; [ exact Hrange | ].
    rewrite _pack_length_ok by exact Hrange. f_equal.
    destruct bs as [|b3 [|b2 [|b1 [|b0 [|]]]]]; try discriminate Hlen.
    repeat match goal with H : Forall _ (_ :: _) |- _ => apply Forall_cons in H as [? H] end.
    rewrite to_bytes4_big_arith, from_bytes_big_4 by assumption.
    unfold is_byte in *. repeat f_equal; div_mod_lia.
  - intros Hlen. unfold _unpack_length, len.
    destruct (Z.eqb_spec (Z.of_nat (length bs)) 4); [ lia | reflexivity ].
Qed.

Lemma length_header_unpack_pack_witness :
  (exists n, _unpack_length [1; 2; 3; 4] = OK n /\ _pack_length n = OK [1; 2; 3; 4])
  /\ _unpack_length [1; 2; 3; 4; 5] = Raise FormatError.
Proof.
  assert (H4 : Forall is_byte [1; 2; 3; 4])
    by (unfold is_byte; repeat (apply Forall_cons_2; [ lia | ]); apply Forall_nil_2).
  assert (H5 : Forall is_byte [1; 2; 3; 4; 5])
    by (unfold is_byte; repeat (apply Forall_cons_2; [ lia | ]); apply Forall_nil_2).
  split.
  - destruct (proj1 (length_header_unpack_pack _ H4) eq_refl) as (n & Hun & _ & Hpack).
    exists n. split; assumption.
  - apply (proj2 (length_header_unpack_pack _ H5)). discriminate.
Defined.

(** ** Further properties: embed *)

(** *** Embedding twice *)

Lemma set_lsb_set_lsb c b1 b2 :
  is_bit b1 -> is_bit b2 -> set_lsb (set_lsb c b1) b2 = set_lsb c b2.
Proof.
  intros H1 H2. rewrite (set_lsb_arith (set_lsb c b1)) by assumption.
  rewrite !set_lsb_arith by assumption.
  apply is_bit_range in H1. apply is_bit_range in H2. div_mod_lia.
Qed.

Lemma write_lsbs_write_lsbs bits1 bits2 cs :
  Forall is_bit bits1 -> Forall is_bit bits2 ->
  (length bits1 <= length bits2)%nat ->
  write_lsbs bits2 (write_lsbs bits1 cs) = write_lsbs bits2 cs.
Proof.
  intros H1. revert bits2 cs.
  induction H1 as [|b1 bits1 Hb1 _ IH]; intros bits2 cs H2 Hlen.
  - rewrite write_lsbs_nil. reflexivity.
  - destruct bits2 as [|b2 bits2]; [ simpl in Hlen; lia | ].
    apply Forall_cons in H2 as [Hb2 H2].
    destruct cs as [|c cs]; [ reflexivity | ].
    cbn [write_lsbs]. rewrite set_lsb_set_lsb by assumption.
    f_equal. apply IH; [ assumption | simpl in Hlen; lia ].
Qed.

Lemma channels_inj ps1 ps2 : channels ps1 = channels ps2 -> ps1 = ps2.
Proof.
  revert ps2. induction ps1 as [|[[r1 g1] b1] ps1 IH]; intros [|[[r2 g2] b2] ps2] Heq;
    try reflexivity; try discriminate.
  rewrite !channels_cons in Heq. injection Heq as -> -> -> Heq.
  f_equal. apply IH. assumption.
Qed.

(** X7 ([embed_message], embedding into a stego image): when a second
    message, whose encoding is at least as long as that of the first, is
    embedded into the result of embedding the first, the image obtained is
    the one obtained by embedding the second message into the original.
    In particular embedding the same message again changes nothing. *)
Theorem embed_overwrites img0 message1 message2 h1 h2 :
  embed_pixels img0 message1 = (OK tt, h1) ->
  embed_pixels (img h1) message2 = (OK tt, h2) ->
  utf8_len message1 <= utf8_len message2 ->
  exists h, embed_pixels img0 message2 = (OK tt, h) /\ img h = img h2.
Proof.
  intros Hrun1 Hrun2 Hlen.
  destruct (embed_pixels_ok_inv _ _ _ Hrun1)
    as (p1 & Henc1 & _ & Hdata1 & Hw1 & Hh1 & Hch1 & Hn1 & Hmax1 & Hcap1).
  destruct (embed_pixels_ok_inv _ _ _ Hrun2)
    as (p2 & Henc2 & _ & Hdata2 & Hw2 & Hh2 & Hch2 & Hn2 & Hmax2 & Hcap2).
  rewrite (utf8_len_eq _ _ Henc1), (utf8_len_eq _ _ Henc2) in Hlen.
  assert (Hcap : 32 + 8 * len p2 <= len (channels (data img0))).
  { rewrite !channels_len in *. unfold len in *. rewrite Hdata1, Hn1 in Hcap2. lia. }
  destruct (embed_pixels_fits img0 _ _ Henc2 Hmax2 Hcap) as (ps & rest & Hrun & Hch & _).
  eexists. split; [ exact Hrun | ]. cbn [img].
  destruct (img h2) as [w2 hg2 d2] eqn:Himg2. cbn [width height data] in *.
  rewrite Hw2, Hw1, Hh2, Hh1. f_equal.
  apply channels_inj. rewrite Hch, Hdata2, Hch2, Hdata1, Hch1.
  symmetry. apply write_lsbs_write_lsbs; auto with stego.
  pose proof (frame_bits_len p1). pose proof (frame_bits_len p2). unfold len in *. lia.
Qed.

Lemma embed_overwrites_witness :
  let cover := {| width := 5; height := 4; data := replicate 20 (10, 11, 12) |} in
  let h1 := (embed_pixels cover [65]).2 in
  let h2 := (embed_pixels (img h1) [66; 67]).2 in
  exists h, embed_pixels cover [66; 67] = (OK tt, h) /\ img h = img h2.
Proof.
  intros cover h1 h2.
  apply (embed_overwrites cover [65] [66; 67] h1 h2).
  - vm_compute. reflexivity.
  - vm_compute. reflexivity.
  - vm_compute. discriminate.
Defined.

(** X8 ([embed_message], distortion): a channel value in [0, 255] moves by
    at most 1; it moves only inside the frame, and stays when its least
    significant bit already is the bit to store. *)
Theorem embed_distortion_bound img0 message h :
  embed_pixels img0 message = (OK tt, h) ->
  Forall is_byte (channels (data img0)) ->
  forall i c c',
    channels (data img0) !! i = Some c ->
    channels (data (img h)) !! i = Some c' ->
    -1 <= c' - c <= 1
    /\ (c' <> c -> Z.of_nat i < 32 + 8 * utf8_len message)
    /\ (message_bits message !! i = Some (lsb c) -> c' = c).
Proof.
  intros Hrun Hrange i c c' Hc Hc'.
  destruct (embed_pixels_ok_inv _ _ _ Hrun)
    as (payload & Henc & _ & Hdata & _ & _ & Hch & _ & Hmax & Hcap).
  rewrite Hdata, Hch in Hc'.
  rewrite (message_bits_eq _ _ Henc), (utf8_len_eq _ _ Henc).
  pose proof (frame_bits_len payload) as Hflen.
  assert (Hbyte : is_byte c) by (eapply Forall_lookup_1; eassumption).
  destruct (frame_bits payload !! i) as [bit | ] eqn:Hbit.
  - assert (Hisbit : is_bit bit).
    { eapply Forall_lookup_1; [ | exact Hbit ]. auto with stego. }
    rewrite (write_lsbs_lookup_lt _ _ _ _ _ Hbit Hc) in Hc'. injection Hc' as <-.
    apply lookup_lt_Some in Hbit.
    rewrite set_lsb_arith by assumption. unfold lsb. rewrite land_1_mod.
    apply is_bit_range in Hisbit. unfold is_byte in Hbyte.
    split; [ div_mod_lia | ]. split; [ intros _; unfold len in *; lia | ].
    intros Heq. injection Heq as ->. div_mod_lia.
  - apply lookup_ge_None in Hbit.
    rewrite write_lsbs_lookup_ge, Hc in Hc' by assumption. injection Hc' as <-.
    split; [ lia | ]. split; [ intros Hne; contradiction | discriminate ].
Qed.

Lemma embed_distortion_bound_witness :
  let cover := {| width := 4; height := 3; data := replicate 12 (255, 0, 128) |} in
  let h := (embed_pixels cover []).2 in
  channels (data cover) !! 0%nat = Some 255
  /\ channels (data (img h)) !! 0%nat = Some 254
  /\ -1 <= 254 - 255 <= 1.
Proof.
  intros cover h. split; [ reflexivity | ]. split; [ reflexivity | ].
  refine (proj1 (embed_distortion_bound cover [] h eq_refl _ 0%nat 255 254 eq_refl eq_refl)).
  vm_compute. repeat (apply Forall_cons_2; [ split; discriminate | ]). apply Forall_nil_2.
Defined.

(** *** The least-significant bits after embed *)

(** X9 ([embed_message], capacity boundary and bit layout): a message whose
    frame has at most as many bits as the image has channels is embedded;
    the least-significant bits of the output, in raster order, are the
    frame bits followed by the least-significant bits the remaining
    channels already had.  A frame of exactly as many bits as there are
    channels fits, and then the least-significant bits are the frame. *)
Theorem embed_lsb_layout img0 message :
  Forall scalar message ->
  utf8_len message <= 0xFFFFFFFF ->
  32 + 8 * utf8_len message <= len (channels (data img0)) ->
  exists h,
    embed_pixels img0 message = (OK tt, h)
    /\ lsb <$> channels (data (img h))
       = message_bits message
         ++ (lsb <$> drop (length (message_bits message)) (channels (data img0)))
    /\ (32 + 8 * utf8_len message = len (channels (data img0)) ->
        lsb <$> channels (data (img h)) = message_bits message).
Proof.
  intros Hscalar Hlen Hcap.
  destruct (encode_utf8_scalar _ Hscalar) as (payload & Henc & _ & _).
  rewrite (utf8_len_eq _ _ Henc) in *. rewrite (message_bits_eq _ _ Henc).
  destruct (embed_pixels_fits img0 _ _ Henc Hlen Hcap) as (ps & rest & Hrun & Hch & _).
  pose proof (frame_bits_len payload) as Hflen.
  assert (Hlayout : lsb <$> channels ps
                    = frame_bits payload
                      ++ (lsb <$> drop (length (frame_bits payload)) (channels (data img0)))).
  { rewrite Hch. apply lsb_write_lsbs; [ auto with stego | unfold len in *; lia ]. }
  eexists. split; [ exact Hrun | ]. cbn [img data]. split; [ exact Hlayout | ].
  intros Hexact. rewrite Hlayout, drop_ge by (unfold len in *; lia).
  apply app_nil_r.
Qed.

(** Two bytes in a 4 x 4 image: 48 frame bits for 48 channels. *)
Lemma embed_lsb_layout_witness :
  let cover := {| width := 4; height := 4; data := replicate 16 (7, 8, 9) |} in
  32 + 8 * utf8_len [104; 105] = len (channels (data cover))
  /\ exists h, embed_pixels cover [104; 105] = (OK tt, h)
               /\ lsb <$> channels (data (img h)) = message_bits [104; 105].
Proof.
  intros cover. split; [ reflexivity | ].
  destruct (embed_lsb_layout cover [104; 105]) as (h & Hrun & _ & Hexact).
  - unfold scalar. repeat (apply Forall_cons_2; [ lia | ]). apply Forall_nil_2.
  - vm_compute. discriminate.
  - vm_compute. discriminate.
  - exists h. split; [ exact Hrun | ]. apply Hexact. reflexivity.
Defined.

Lemma write_lsbs_zeros n cs :
  (n <= length cs)%nat ->
  write_lsbs (replicate n 0) cs = ((fun c => Z.land c 0xFE) <$> take n cs) ++ drop n cs.
Proof.
  revert cs. induction n as [|n IH]; intros cs Hn.
  - cbn [replicate]. rewrite write_lsbs_nil. reflexivity.
  - destruct cs as [|c cs]; [ simpl in Hn; lia | ].
    cbn [replicate write_lsbs take drop fmap list_fmap app].
    unfold set_lsb at 1. rewrite Z.lor_0_r. f_equal.
    apply IH. simpl in Hn. lia.
Qed.

(** X10 ([embed_message], empty message): in an image of at least 32
    channels the empty text is embedded as the zero header alone: the least
    significant bit of the first 32 channel values is cleared, every other
    value is kept, and extract on the result gives the empty text. *)
Theorem embed_empty_message img0 :
  32 <= len (channels (data img0)) ->
  exists h,
    embed_pixels img0 [] = (OK tt, h)
    /\ channels (data (img h))
       = ((fun c => Z.land c 0xFE) <$> take 32 (channels (data img0)))
         ++ drop 32 (channels (data img0))
    /\ extract_pixels (data (img h)) = OK [].
Proof.
  intros Hcap.
  assert (Henc : encode_utf8 [] = OK []) by reflexivity.
  destruct (embed_pixels_fits img0 [] [] Henc) as (ps & rest & Hrun & Hch & _);
    [ vm_compute; discriminate | exact Hcap | ].
  change (frame_bits []) with (replicate 32 0) in Hch.
  eexists. split; [ exact Hrun | ]. cbn [img data]. split.
  - rewrite Hch. apply write_lsbs_zeros. unfold len in Hcap. lia.
  - refine (extract_embedded img0 [] ps _ _ Hcap _);
      [ apply Forall_nil_2 | vm_compute; discriminate | ].
    rewrite Hch. reflexivity.
Qed.

Lemma embed_empty_message_witness :
  let cover := {| width := 4; height := 3; data := replicate 12 (255, 254, 7) |} in
  exists h, embed_pixels cover [] = (OK tt, h) /\ extract_pixels (data (img h)) = OK [].
Proof.
  intros cover.
  destruct (embed_empty_message cover) as (h & Hrun & _ & Hext).
  - vm_compute. discriminate.
  - exists h. split; assumption.
Defined.

(** X11 ([extract_message], no marker): extract cannot tell a cover image
    from a stego image.  On every image of at least 32 channels whose
    first 32 channel values are even it returns the empty text, without an
    error. *)
Theorem extract_even_prefix ps :
  32 <= len (channels ps) ->
  Forall (fun c => lsb c = 0) (take 32 (channels ps)) ->
  extract_pixels ps = OK [].
Proof.
  intros Hlen Heven.
  assert (Hbits : lsb <$> take 32 (channels ps) = replicate 32 0).
  { assert (Hn : length (take 32 (channels ps)) = 32%nat)
      by (rewrite length_take; unfold len in Hlen; lia).
    revert Hn Heven. generalize (take 32 (channels ps)) as l. generalize 32%nat as n.
    induction n as [|n IH]; intros [|c l] Hn Hall; try discriminate; [ reflexivity | ].
    apply Forall_cons in Hall as [Hc Hall].
    cbn [fmap list_fmap replicate]. rewrite Hc. f_equal.
    apply IH; [ simpl in Hn; lia | assumption ]. }
  assert (Hhdr : header_length (channels ps) = OK 0).
  { destruct (header_length_ok _ Hlen) as [-> _]. rewrite Hbits. reflexivity. }
  rewrite (extract_pixels_complete ps 0 Hhdr) by lia. reflexivity.
Qed.

Lemma extract_even_prefix_witness :
  extract_pixels (replicate 11 (200, 100, 50) ++ [(1, 3, 5)]) = OK [].
Proof.
  apply extract_even_prefix.
  - vm_compute. discriminate.
  - vm_compute. repeat (apply Forall_cons_2; [ reflexivity | ]). apply Forall_nil_2.
Defined.

(** *** Through the file system *)

Section FileProperties.
Variable registry : list string -> save_as.

(** X12 ([embed_message] then [extract_message]): a text of scalar values
    that fits the opened cover, written to a location that can be written
    in a format that keeps every pixel (PNG, BMP), is saved in an image of
    the size of the cover, from which [extract_message] returns it.  The
    paths may name one file: the cover is then replaced by the stego
    image.  When they do not, the cover file reads as before. *)
Theorem embed_message_extract_message w input_path output_path message img0 :
  Image_open w input_path = OK img0 ->
  Forall scalar message ->
  32 + 8 * utf8_len message <= len (channels (data img0)) ->
  writable w output_path ->
  lossless (registry output_path) ->
  exists w' stego,
    embed_message registry w input_path output_path message = (OK tt, w')
    /\ files w' !! output_path = Some (image_file stego)
    /\ width stego = width img0 /\ height stego = height img0
    /\ length (data stego) = length (data img0)
    /\ extract_message w' output_path = OK message
    /\ (output_path <> input_path ->
        extract_message w' input_path = extract_message w input_path).
Proof.
  intros Hopen Hscalar Hcap Hwr (save_handler & Hreg & Hkeeps).
  destruct (encode_utf8_scalar _ Hscalar) as (payload & Henc & Hbytes & Hdec).
  rewrite (utf8_len_eq _ _ Henc) in *.
  pose proof (Image_open_header_range _ _ _ _ Hopen Hcap) as Hlen.
  destruct (embed_pixels_fits img0 _ _ Henc Hlen Hcap) as (ps & rest & Hrun & Hch & Hn).
  rewrite (embed_message_ok registry w input_path output_path message img0 _ save_handler _
             Hopen Hrun Hwr Hreg (Hkeeps _)).
  cbn [img]. do 2 eexists. split; [ reflexivity | ]. cbn [files].
  split; [ apply lookup_insert_eq | ]. cbn [width height data].
  split; [ reflexivity | ]. split; [ reflexivity | ]. split; [ exact Hn | ]. split.
  - unfold extract_message.
    rewrite (Image_open_same_size w input_path img0 _ output_path
               {| width := width img0; height := height img0; data := ps |} Hopen);
      [ | apply lookup_insert_eq | reflexivity | reflexivity | exact Hn ].
    cbn [bind data]. rewrite <- Hdec. apply (extract_embedded img0); assumption.
  - intros Hne. unfold extract_message.
    destruct (Image_open_inv _ _ _ Hopen) as (Hfile & _).
    rewrite Hopen.
    rewrite (Image_open_same_size w input_path img0 _ input_path img0 Hopen);
      [ reflexivity | | reflexivity | reflexivity | reflexivity ].
    cbn [files]. rewrite lookup_insert_ne by assumption. exact Hfile.
Qed.

(** X14 ([compute_bpp] after [embed_message]): embedding does not change
    what the image can hold.  When the stego image was written in a format
    that keeps every pixel, the report on the stego file is, for every
    text, the report on the cover file. *)
Theorem report_unchanged_by_embed (float : Type) (float_zero : float)
    (truediv : Z -> Z -> float) w input_path output_path message w' message' :
  embed_message registry w input_path output_path message = (OK tt, w') ->
  lossless (registry output_path) ->
  stego_bpp.compute_bpp_default float float_zero truediv w' output_path message'
  = stego_bpp.compute_bpp_default float float_zero truediv w input_path message'.
Proof.
  intros Hrun (keeps & Hreg' & Hkeeps).
  destruct (embed_message_ok_inv _ _ _ _ _ _ Hrun)
    as (img0 & h & save_handler & f & Hopen & Hpx & Hreg & Hsaved & Hfiles & _).
  assert (Hf : f = image_file (img h)).
  { rewrite Hreg in Hreg'. injection Hreg' as ->. rewrite Hkeeps in Hsaved. congruence. }
  destruct (embed_pixels_ok_inv _ _ _ Hpx) as (_ & _ & _ & Hdata & Hw & Hh & _ & Hn & _).
  assert (Hopen' : Image_open w' output_path = OK (img h)).
  { apply (Image_open_same_size w input_path img0); try assumption.
    - rewrite Hfiles, Hf. apply lookup_insert_eq.
    - rewrite Hdata. exact Hn. }
  unfold stego_bpp.compute_bpp_default, stego_bpp.compute_bpp.
  rewrite Hopen', Hopen. cbn [bind]. rewrite Hw, Hh. reflexivity.
Qed.

(** X13 ([compute_bpp] against [embed_message]): for a text that fits the
    header, the report on an image says that the text does not fit
    exactly when [embed_message] on that image and text raises the
    capacity error; nothing is then written, and the capacity and need
    the error shows are [capacity_bytes] and [total_bits / 8] of the
    report.  When the report says [fits], [embed_message] succeeds
    provided the output location can be written and the format of its
    extension takes the image. *)
Theorem fits_iff_embed_succeeds (float : Type) (float_zero : float)
    (truediv : Z -> Z -> float) w image_path output_path message img0 r :
  Image_open w image_path = OK img0 ->
  Forall scalar message ->
  utf8_len message <= 0xFFFFFFFF ->
  stego_bpp.compute_bpp_default float float_zero truediv w image_path message = OK r ->
  (stego_bpp.fits r = false
   <-> exists c n,
         (embed_message registry w image_path output_path message).1
         = Raise (CapacityError c n))
  /\ (stego_bpp.fits r = false ->
      embed_message registry w image_path output_path message
      = (Raise (CapacityError (stego_bpp.capacity_bytes r) (stego_bpp.total_bits r / 8)), w))
  /\ (stego_bpp.fits r = true ->
      writable w output_path ->
      saves (registry output_path) ->
      (embed_message registry w image_path output_path message).1 = OK tt).
Proof.
  intros Hopen Hscalar Hlen Hreport.
  destruct (encode_utf8_scalar _ Hscalar) as (payload & Henc & _ & _).
  rewrite (utf8_len_eq _ _ Henc) in Hlen.
  destruct (Image_open_inv _ _ _ Hopen) as (_ & _ & _ & Hsize & _).
  unfold stego_bpp.compute_bpp_default, stego_bpp.compute_bpp in Hreport.
  rewrite Hopen, Henc in Hreport. cbn [bind] in Hreport. injection Hreport as <-.
  cbn [stego_bpp.fits stego_bpp.capacity_bytes stego_bpp.total_bits].
  rewrite <- Hsize.
  replace (len (data img0) * 3 * 1) with (len (channels (data img0)))
    by (rewrite channels_len; lia).
  pose proof (embed_message_stages registry w image_path output_path message) as Hst.
  rewrite Hopen in Hst.
  destruct (Z.leb_spec (32 + len payload * 8) (len (channels (data img0)))) as [Hfit | Hno].
  - assert (Hcap : 32 + 8 * len payload <= len (channels (data img0))) by lia.
    destruct (embed_pixels_fits img0 _ _ Henc Hlen Hcap) as (ps & rest & Hpx & _).
    split; [ split; [ discriminate | ] | split; [ discriminate | ] ].
    + intros (c & n & Hraise).
      destruct (embed_message_CapacityError_inv _ _ _ _ _ _ _ Hraise)
        as (img1 & h & Hopen1 & Hpx1).
      rewrite Hopen in Hopen1. injection Hopen1 as <-. rewrite Hpx in Hpx1. discriminate.
    + intros _ Hwr (save_handler & written_file & Hreg & Hsaves).
      rewrite (embed_message_ok registry w image_path output_path message img0 _
                 save_handler _ Hopen Hpx Hwr Hreg (Hsaves _)).
      reflexivity.
  - assert (Hcap : len (channels (data img0)) < 32 + 8 * len payload) by lia.
    rewrite (embed_pixels_too_large _ _ _ Henc Hlen Hcap) in Hst. rewrite Hst. cbn [fst].
    replace ((32 + len payload * 8) / 8) with (4 + len payload) by div_mod_lia.
    split; [ split; [ eauto | reflexivity ] | split; [ reflexivity | discriminate ] ].
Qed.

End FileProperties.

(** Embedding in place. *)
Lemma embed_message_extract_message_witness :
  let cover := {| width := 5; height := 3; data := replicate 15 (90, 91, 92) |} in
  let w := {| files := {[ ["cover.png"%string] := image_file cover ]}; dirs := {[ [] ]} |} in
  exists w',
    embed_message png_bmp_registry w ["cover.png"%string] ["cover.png"%string] [72]
    = (OK tt, w')
    /\ extract_message w' ["cover.png"%string] = OK [72].
Proof.
  intros cover w.
  destruct (embed_message_extract_message png_bmp_registry w ["cover.png"%string]
              ["cover.png"%string] [72] cover)
    as (w' & stego & Hrun & _ & _ & _ & _ & Hext & _).
  - apply Image_open_image;
      [ apply lookup_singleton_eq | vm_compute; first [ reflexivity | discriminate ] .. ].
  - unfold scalar. repeat (apply Forall_cons_2; [ lia | ]). apply Forall_nil_2.
  - vm_compute. discriminate.
  - split; [ | split ].
    + apply bool_decide_eq_false_2. intros [x Hx]. unfold w in Hx. cbn [files] in Hx.
      rewrite lookup_singleton_ne in Hx; discriminate.
    + cbn [dirs w]. intros Hin%elem_of_singleton. discriminate.
    + discriminate.
  - exists (fun im => saved (image_file im)). split; reflexivity.
  - exists w'. split; assumption.
Defined.

(** The empty text in a 2 x 2 cover: the report says that it does not fit,
    and [embed_message] raises the capacity error with its numbers. *)
Lemma fits_iff_embed_succeeds_witness :
  let cover := {| width := 2; height := 2; data := replicate 4 (1, 2, 3) |} in
  let w := {| files := {[ ["c.png"%string] := image_file cover ]}; dirs := {[ [] ]} |} in
  exists r,
    stego_bpp.compute_bpp_default spec_float (S754_zero false) double_div
      w ["c.png"%string] [] = OK r
    /\ stego_bpp.capacity_bytes r = 1 /\ stego_bpp.total_bits r / 8 = 4
    /\ embed_message png_bmp_registry w ["c.png"%string] ["s.png"%string] []
       = (Raise (CapacityError (stego_bpp.capacity_bytes r) (stego_bpp.total_bits r / 8)), w).
Proof.
  intros cover w.
  assert (Hopen : Image_open w ["c.png"%string] = OK cover).
  { apply Image_open_image;
      [ apply lookup_singleton_eq | vm_compute; first [ reflexivity | discriminate ] .. ]. }
  destruct (stego_bpp.compute_bpp_default spec_float (S754_zero false) double_div
              w ["c.png"%string] []) as [r | e] eqn:Hreport.
  - exists r. split; [ reflexivity | ].
    assert (Hr : stego_bpp.capacity_bytes r = 1 /\ stego_bpp.total_bits r / 8 = 4
                 /\ stego_bpp.fits r = false).
    { unfold stego_bpp.compute_bpp_default, stego_bpp.compute_bpp in Hreport.
      rewrite Hopen in Hreport. cbn [bind] in Hreport.
      injection Hreport as <-. repeat split. }
    destruct Hr as (Hc & Hn & Hfits). split; [ exact Hc | ]. split; [ exact Hn | ].
    apply (fits_iff_embed_succeeds png_bmp_registry spec_float (S754_zero false) double_div
             w ["c.png"%string] ["s.png"%string] [] cover r).
    + exact Hopen.
    + apply Forall_nil_2.
    + vm_compute. discriminate.
    + exact Hreport.
    + exact Hfits.
  - unfold stego_bpp.compute_bpp_default, stego_bpp.compute_bpp in Hreport.
    rewrite Hopen in Hreport. discriminate Hreport.
Defined.

Lemma report_unchanged_by_embed_witness :
  let cover := {| width := 4; height := 3; data := replicate 12 (1, 2, 3) |} in
  let w := {| files := {[ ["c.png"%string] := image_file cover ]}; dirs := {[ [] ]} |} in
  let w' := (embed_message png_bmp_registry w ["c.png"%string]
               ["out"%string; "s.png"%string] []).2 in
  (embed_message png_bmp_registry w ["c.png"%string] ["out"%string; "s.png"%string] []).1
  = OK tt
  /\ stego_bpp.compute_bpp_default spec_float (S754_zero false) double_div
       w' ["out"%string; "s.png"%string] [65; 66]
     = stego_bpp.compute_bpp_default spec_float (S754_zero false) double_div
         w ["c.png"%string] [65; 66].
Proof.
  intros cover w w'.
  assert (Hopen : Image_open w ["c.png"%string] = OK cover).
  { apply Image_open_image;
      [ apply lookup_singleton_eq | vm_compute; first [ reflexivity | discriminate ] .. ]. }
  assert (Hrun : embed_message png_bmp_registry w ["c.png"%string]
                   ["out"%string; "s.png"%string] [] = (OK tt, w')).
  { destruct (embed_pixels cover []) as [r h] eqn:Hpx.
    assert (Hr : r = OK tt) by (vm_compute in Hpx; congruence). subst r.
    subst w'.
    rewrite (embed_message_ok png_bmp_registry w ["c.png"%string]
               ["out"%string; "s.png"%string] [] cover h
               (fun im => saved (image_file im)) (image_file (img h)) Hopen Hpx);
      [ reflexivity | | reflexivity | reflexivity ].
    split; [ | split ].
    - change (bool_decide (is_Some (files w !! ["out"%string]))
              || bool_decide (is_Some (files w !! ([] : list string))) = false).
      rewrite !bool_decide_eq_false_2; [ reflexivity | | ];
        intros [x Hx]; unfold w in Hx; cbn [files] in Hx;
        rewrite lookup_singleton_ne in Hx; discriminate.
    - cbn [dirs w]. intros Hin%elem_of_singleton. discriminate.
    - discriminate. }
  split; [ rewrite Hrun; reflexivity | ].
  apply (report_unchanged_by_embed png_bmp_registry spec_float (S754_zero false) double_div
           w ["c.png"%string] ["out"%string; "s.png"%string] [] w').
  - exact Hrun.
  - exists (fun im => saved (image_file im)). split; reflexivity.
Defined.

(** *** The command line and the window *)


Lemma embed_message_ok_encode registry w input_path output_path message w' :
  embed_message registry w input_path output_path message = (OK tt, w') ->
  exists payload, encode_utf8 message = OK payload.
Proof.
  intros Hrun.
  destruct (embed_message_ok_inv _ _ _ _ _ _ Hrun) as (img0 & h & _ & _ & _ & Hpx & _).
  destruct (embed_pixels_ok_inv _ _ _ Hpx) as (payload & Henc & _). eauto.
Qed.

Section MainProperties.
Variable registry : list string -> save_as.
Variable Path : string -> list string.


(** X16 ([main], failures): [main] catches nothing.  When an exception
    escapes, nothing has been printed.  Whatever the outcome, no file
    other than the one at the output location has changed and no
    directory is gone, but directories above the output location may have
    been made before [save] raised; when the exception is one of the
    tool's own on embed, for a text too long for the header or for the
    image, the file system is as it was.  A command other than [embed]
    leaves the file system as it is. *)
Theorem main_failure_is_silent w args r out w' :
  main registry Path w args = (r, out, w') ->
  (forall e, r = Raise e -> out = [])
  /\ (forall p, p <> Path (ns_output_path args) -> files w' !! p = files w !! p)
  /\ dirs w ⊆ dirs w'
  /\ (r = Raise RangeError \/ (exists c n, r = Raise (CapacityError c n)) -> w' = w)
  /\ (cmd args <> "embed"%string -> w' = w).
Proof.
  unfold main. intros Hrun.
  destruct (String.eqb_spec (cmd args) "embed") as [Hcmd | Hcmd].
  - pose proof (embed_message_frame registry w (Path (ns_input_path args))
                  (Path (ns_output_path args)) (ns_text args)) as [Hfiles Hdirs].
    pose proof (embed_message_codec_error registry w (Path (ns_input_path args))
                  (Path (ns_output_path args)) (ns_text args)) as Hcodec.
    destruct (embed_message registry w (Path (ns_input_path args))
                (Path (ns_output_path args)) (ns_text args)) as [[[] | e'] w1] eqn:Hembed;
      cbn [fst snd] in *.
    + destruct (embed_message_ok_encode _ _ _ _ _ _ Hembed) as (payload & Henc).
      rewrite Henc in Hrun. injection Hrun as <- <- <-.
      split; [ discriminate | ]. split; [ exact Hfiles | ]. split; [ exact Hdirs | ].
      split; [ | contradiction ]. intros [He | (c & n & He)]; discriminate He.
    + injection Hrun as <- <- <-.
      split; [ reflexivity | ]. split; [ exact Hfiles | ]. split; [ exact Hdirs | ].
      split; [ | contradiction ].
      intros [He | (c & n & He)]; injection He as ->; apply (Hcodec _ eq_refl); eauto.
  - assert (Hw : w' = w /\ forall e, r = Raise e -> out = []).
    { destruct (String.eqb (cmd args) "extract").
      - destruct (extract_message w (Path (ns_input_path args)));
          injection Hrun as <- <- <-; split; [ reflexivity | discriminate | | ]; auto.
      - injection Hrun as <- <- <-. split; [ reflexivity | discriminate ]. }
    destruct Hw as [-> Hout]. repeat split; auto.
Qed.

End MainProperties.

(** An output name with an extension Pillow does not know: the exception
    of [save] escapes, nothing is printed and no file is written, but the
    directory of the output has been made. *)
Lemma main_failure_is_silent_witness :
  let Path := fun s : string =>
                if String.eqb s "newdir/out.xyz" then ["newdir"%string; "out.xyz"%string]
                else [s] in
  let cover := {| width := 5; height := 3; data := replicate 15 (1, 2, 3) |} in
  let w := {| files := {[ ["c.png"%string] := image_file cover ]}; dirs := {[ [] ]} |} in
  let args := {| cmd := "embed"; ns_input_path := "c.png";
                 ns_output_path := "newdir/out.xyz"; ns_text := [65] |} in
  exists w',
    main png_bmp_registry Path w args
    = (Raise (ValueError "unknown file extension: .xyz"), [], w')
    /\ files w' !! ["c.png"%string] = files w !! ["c.png"%string]
    /\ dirs w ⊆ dirs w'
    /\ ["newdir"%string] ∈ dirs w'.
Proof.
  intros Path cover w args.
  assert (Hopen : Image_open w ["c.png"%string] = OK cover).
  { apply Image_open_image;
      [ apply lookup_singleton_eq | vm_compute; first [ reflexivity | discriminate ] .. ]. }
  assert (Hfree : mkdir_blocked (files w) ["newdir"%string] 1 = false).
  { change (bool_decide (is_Some (files w !! ["newdir"%string]))
            || bool_decide (is_Some (files w !! ([] : list string))) = false).
    rewrite !bool_decide_eq_false_2; [ reflexivity | | ];
      intros [x Hx]; unfold w in Hx; cbn [files] in Hx;
      rewrite lookup_singleton_ne in Hx; discriminate. }
  assert (Hembed : embed_message png_bmp_registry w ["c.png"%string]
                     ["newdir"%string; "out.xyz"%string] [65]
                   = (Raise (ValueError "unknown file extension: .xyz"),
                      {| files := files w;
                         dirs := mkdir_parents ["newdir"%string] (dirs w) |})).
  { pose proof (embed_message_stages png_bmp_registry w ["c.png"%string]
                  ["newdir"%string; "out.xyz"%string] [65]) as Hst.
    rewrite Hopen in Hst.
    destruct (embed_pixels cover [65]) as [r h] eqn:Hpx.
    assert (Hr : r = OK tt) by (vm_compute in Hpx; congruence). subst r.
    change (parent ["newdir"%string; "out.xyz"%string]) with ["newdir"%string] in Hst.
    change (length ["newdir"%string]) with 1%nat in Hst.
    rewrite Hfree in Hst. exact Hst. }
  destruct (main png_bmp_registry Path w args) as [[r out] w'] eqn:Hrun.
  destruct (main_failure_is_silent png_bmp_registry Path w args r out w' Hrun)
    as (Hsilent & Hfiles & Hdirs & _).
  assert (Hmain : r = Raise (ValueError "unknown file extension: .xyz")
                  /\ w' = {| files := files w;
                             dirs := mkdir_parents ["newdir"%string] (dirs w) |}).
  { unfold main in Hrun.
    change (Path (ns_input_path args)) with ["c.png"%string] in Hrun.
    change (Path (ns_output_path args)) with ["newdir"%string; "out.xyz"%string] in Hrun.
    change (ns_text args) with [65] in Hrun.
    change (String.eqb (cmd args) "embed") with true in Hrun.
    cbv iota in Hrun. rewrite Hembed in Hrun. injection Hrun as <- _ <-. auto. }
  destruct Hmain as [Hr Hw']. rewrite (Hsilent _ Hr), Hr.
  exists w'. split; [ reflexivity | ]. split; [ | split; [ exact Hdirs | ] ].
  - apply Hfiles. discriminate.
  - rewrite Hw'. cbn [dirs]. unfold mkdir_parents. apply elem_of_union_r.
    change (with_parents ["newdir"%string] (length ["newdir"%string]))
      with ({[ ["newdir"%string] ]} ∪ ({[ [] ]} : gset (list string))).
    apply elem_of_union_l, elem_of_singleton. reflexivity.
Defined.


Import stego_ui.

Section HandlerProperties.
Variable registry : list string -> save_as.
Variable Path : string -> list string.
Variable Path_str : string -> string.

(** X17 ([_handle_embed] then [_handle_extract]): with a cover that opens,
    a non-empty secret that fits it and an output location that can be
    written in a format that keeps every pixel, the embed handler shows
    the "Done" dialog with the number of UTF-8 bytes; the extract handler
    on the image it has saved then shows no dialog and leaves exactly the
    secret in the text box. *)
Theorem ui_embed_then_extract w app img0 :
  Image_open w (Path (embed_input_var app)) = OK img0 ->
  embed_text_var app <> [] ->
  Forall scalar (embed_text_var app) ->
  32 + 8 * utf8_len (embed_text_var app) <= len (channels (data img0)) ->
  writable w (Path (embed_output_var app)) ->
  lossless (registry (Path (embed_output_var app))) ->
  exists w',
    _handle_embed registry Path Path_str w app
    = ([showinfo "Done" ("Embedded " +:+ format_int (utf8_len (embed_text_var app))
                         +:+ " bytes into " +:+ Path_str (embed_output_var app))],
       w')
    /\ forall app',
         Path (extract_input_var app') = Path (embed_output_var app) ->
         exists app'',
           _handle_extract Path w' app' = ([], app'')
           /\ extract_output app'' = embed_text_var app.
Proof.
  intros Hopen Htext Hscalar Hcap Hwr (save_handler & Hreg & Hkeeps).
  destruct (encode_utf8_scalar _ Hscalar) as (payload & Henc & Hbytes & Hdec).
  rewrite (utf8_len_eq _ _ Henc) in *.
  pose proof (Image_open_header_range _ _ _ _ Hopen Hcap) as Hlen.
  destruct (embed_pixels_fits img0 _ _ Henc Hlen Hcap) as (ps & rest & Hrun & Hch & Hn).
  unfold _handle_embed, Path_bool.
  destruct (embed_text_var app) as [|c secret] eqn:Hsecret; [ contradiction | ].
  cbn [negb orb str_bool].
  rewrite (embed_message_ok registry w _ _ _ img0 _ save_handler _
             Hopen Hrun Hwr Hreg (Hkeeps _)), Henc.
  eexists. split; [ reflexivity | ].
  intros app' Hpath. unfold _handle_extract, Path_bool. cbn [negb].
  unfold extract_message. rewrite Hpath.
  rewrite (Image_open_same_size w _ img0 _ (Path (embed_output_var app))
             {| width := width img0; height := height img0; data := ps |} Hopen);
    [ | apply lookup_insert_eq | reflexivity | reflexivity | exact Hn ].
  cbn [bind data img].
  rewrite (extract_embedded img0 payload ps Hbytes Hlen Hcap Hch), Hdec.
  eexists. split; reflexivity.
Qed.

(** X18 ([_handle_embed], [_handle_extract], refusals and errors): the
    embed handler refuses an empty secret with a warning, whatever the two
    path fields hold, and then touches nothing.  Otherwise it shows one
    dialog: "Done", or "Error" with the exception of [embed_message]; in
    either case no file other than the one at the output location has
    changed and no directory is gone, and after the tool's own errors
    for a text too long for the header or the image the file system is
    as it was.  An exception of [extract_message] is shown in an "Error"
    dialog, and the text box then keeps its content. *)
Theorem ui_failure_changes_nothing w app :
  (embed_text_var app = [] ->
   _handle_embed registry Path Path_str w app
   = ([showwarning "Missing info" "Please select input, output, and secret text."], w))
  /\ (forall ds w',
        _handle_embed registry Path Path_str w app = (ds, w') ->
        (forall p, p <> Path (embed_output_var app) -> files w' !! p = files w !! p)
        /\ dirs w ⊆ dirs w')
  /\ (forall e,
        embed_text_var app <> [] ->
        (embed_message registry w (Path (embed_input_var app))
           (Path (embed_output_var app)) (embed_text_var app)).1 = Raise e ->
        _handle_embed registry Path Path_str w app
        = ([showerror "Error" e],
           (embed_message registry w (Path (embed_input_var app))
              (Path (embed_output_var app)) (embed_text_var app)).2)
        /\ (e = RangeError \/ (exists c n, e = CapacityError c n) ->
            _handle_embed registry Path Path_str w app = ([showerror "Error" e], w)))
  /\ (forall e,
        extract_message w (Path (extract_input_var app)) = Raise e ->
        _handle_extract Path w app = ([showerror "Error" e], app)).
Proof.
  split; [ | split; [ | split ] ].
  - intros Hempty. unfold _handle_embed. rewrite Hempty. reflexivity.
  - intros ds w'. unfold _handle_embed, Path_bool. cbn [negb orb].
    destruct (str_bool (embed_text_var app)); cbn [negb];
      [ | intros [= <- <-]; split; reflexivity ].
    pose proof (embed_message_frame registry w (Path (embed_input_var app))
                  (Path (embed_output_var app)) (embed_text_var app)) as Hframe.
    destruct (embed_message registry w (Path (embed_input_var app))
                (Path (embed_output_var app)) (embed_text_var app)) as [[[] | e] w1];
      cbn [snd] in Hframe.
    + destruct (encode_utf8 (embed_text_var app)); intros [= <- <-]; exact Hframe.
    + intros [= <- <-]. exact Hframe.
  - intros e Htext Hraise.
    assert (Hshow : _handle_embed registry Path Path_str w app
                    = ([showerror "Error" e],
                       (embed_message registry w (Path (embed_input_var app))
                          (Path (embed_output_var app)) (embed_text_var app)).2)).
    { unfold _handle_embed, Path_bool.
      destruct (embed_text_var app) as [|c secret] eqn:Hsecret; [ contradiction | ].
      cbn [negb orb str_bool].
      destruct (embed_message registry w (Path (embed_input_var app))
                  (Path (embed_output_var app)) (c :: secret)) as [r w1].
      cbn [fst snd] in *. subst r. reflexivity. }
    split; [ exact Hshow | ]. intros Hkind.
    rewrite Hshow, (embed_message_codec_error _ _ _ _ _ _ Hraise Hkind). reflexivity.
  - intros e Hraise. unfold _handle_extract, Path_bool. cbn [negb].
    rewrite Hraise. reflexivity.
Qed.

End HandlerProperties.

Lemma ui_embed_then_extract_witness :
  let Path := fun s : string => [s] in
  let Path_str := fun s : string => s in
  let cover := {| width := 5; height := 3; data := replicate 15 (1, 2, 3) |} in
  let w := {| files := {[ ["c.png"%string] := image_file cover ]}; dirs := {[ [] ]} |} in
  let app := {| embed_input_var := "c.png"; embed_output_var := "c_stego.png";
                embed_text_var := [72]; extract_input_var := "c_stego.png";
                extract_output := [] |} in
  exists w',
    _handle_embed png_bmp_registry Path Path_str w app
    = ([showinfo "Done" "Embedded 1 bytes into c_stego.png"], w')
    /\ exists app'', _handle_extract Path w' app = ([], app'')
                     /\ extract_output app'' = [72].
Proof.
  intros Path Path_str cover w app.
  destruct (ui_embed_then_extract png_bmp_registry Path Path_str w app cover)
    as (w' & Hrun & Hext).
  - apply Image_open_image;
      [ apply lookup_singleton_eq | vm_compute; first [ reflexivity | discriminate ] .. ].
  - discriminate.
  - unfold scalar. repeat (apply Forall_cons_2; [ cbn; lia | ]). apply Forall_nil_2.
  - vm_compute. discriminate.
  - split; [ | split ].
    + apply bool_decide_eq_false_2. intros [x Hx]. unfold w in Hx. cbn [files] in Hx.
      rewrite lookup_singleton_ne in Hx; discriminate.
    + cbn [dirs w]. intros Hin%elem_of_singleton. discriminate.
    + discriminate.
  - exists (fun im => saved (image_file im)). split; reflexivity.
  - exists w'. split; [ exact Hrun | ]. apply Hext. reflexivity.
Defined.
